(** * torch/csrc/jit/import.cpp : the script-module deserializer

    A shallow embedding of [ScriptModuleDeserializer] and of the public entry
    points [import_ir_module] and [load], followed by the properties of the
    deserialization pipeline: storage aliasing, size validation, traversal
    order of the module tree, parameter binding and the open-from-path
    overloads.

    C++ exceptions are modelled by an error outcome that keeps the state
    reached when the exception was thrown (objects owned by the caller stay
    mutated).  Calls that leave the translation unit (the stream reader, the
    module lookup callback, the module object, the code loader) are recorded
    in a chronological trace. *)

From Stdlib Require Import ZArith NArith Lia String.
From Stdlib.Strings Require Import Byte.
From stdpp Require Import base option list gmap strings.

Set Warnings "-register-all,-notation-for-abbreviation".

Open Scope Z_scope.
Open Scope N_scope.
Open Scope nat_scope.

Notation bytes := (list Byte.byte).

(** ** Messages of caffe2/proto/torch.proto, as the accessors used here see them *)

(** [tensor_proto.data()] and [module_def.torchscript_arena()]: a record
    reference, its key (a decimal string handed to [caffe2::stoull]) and the
    declared byte size. *)
Record RecordRef := mkRecordRef {
  ref_key : string;
  ref_size : N
}.

Definition DataType := Z.

Record TensorDef := mkTensorDef {
  dims : list Z;
  strides : list Z;
  offset : Z;
  data_type : DataType;
  requires_grad : bool;
  data : RecordRef
}.

Record ParameterDef := mkParameterDef {
  param_name : string;
  tensor_id : Z;
  is_buffer : bool
}.

Inductive ModuleDef := mkModuleDef {
  name : string;
  optimize : bool;
  submodules : list ModuleDef;
  parameters : list ParameterDef;
  torchscript_arena : RecordRef
}.

Record ModelDef := mkModelDef {
  main_module : ModuleDef;
  tensors : list TensorDef
}.

(** ** Errors (the exceptions that leave [deserialize]) *)

Inductive Error :=
| ArchiveOpenError            (* AT_CHECK(!in.fail(), ...) in load(filename) *)
| ArchiveReadError            (* thrown by PyTorchStreamReader *)
| MetadataTranscodeError      (* AT_ERROR when !convert_result.ok() *)
| SchemaValidationError       (* AT_ASSERTM(model_def.ParseFromString(...)) *)
| InvalidRecordKeyError       (* caffe2::stoull throws *)
| UnsupportedDataTypeError    (* typeMetaToScalarType throws *)
| StorageSizeMismatchError    (* AT_ASSERT(record_size == data().size()) *)
| CodeArenaSizeMismatchError  (* JIT_ASSERT(size == torchscript_arena().size()) *)
| InvalidTensorIdError        (* tensor_table_.at(...) throws std::out_of_range *)
| ModuleLookupError           (* the lookup callback throws *)
| CodeLoaderError.            (* import_methods throws *)

Inductive outcome (A : Type) :=
| Ret (a : A)
| Throw (e : Error).
Arguments Ret {A} a.
Arguments Throw {A} e.

Definition is_Throw {A} (o : outcome A) : bool :=
  match o with Throw _ => true | Ret _ => false end.

(** ** Streams and files *)

(** A [std::istream]: its fail bit and the bytes behind it. *)
Record istream := mkIstream {
  fail : bool;
  content : bytes
}.

(** The file system seen by [std::ifstream]: [None] when the path cannot be
    opened. *)
Definition FileSystem := string → option bytes.

(** [std::ifstream in(filename, ...)]: an unopenable path yields a stream
    whose fail bit is set; no exception is thrown. *)
Definition ifstream (fs : FileSystem) (filename : string) : istream :=
  match fs filename with
  | Some b => mkIstream false b
  | None => mkIstream true []
  end.

(** ** The stream reader (caffe2/serialize/inline_container.h, not part of
    this translation unit) *)

(** What a constructed reader answers: [None] stands for a thrown exception
    (absent key, truncated or corrupt stream). The size returned next to the
    data pointer is the length of the byte list. *)
Record PyTorchStreamReader := mkReader {
  getLastRecord : option bytes;
  getRecordWithKey : N → option bytes
}.

(** [at::Storage] is a reference-counted pointer to a [StorageImpl]; it is
    modelled by the index of the allocation in the heap of the state, so that
    two copies of one [Storage] denote the same buffer. *)
Notation Storage := nat (only parsing).

Section Importer.

(** [at::ScalarType], declared in ATen. *)
Context {ScalarType : Type}.

(** The collaborators this file calls and does not define. *)
Class Runtime := {
  (** the constructor of the reader over a stream *)
  PyTorchStreamReader_new : istream → option PyTorchStreamReader;
  (** [caffe2::stoull] *)
  stoull : string → option N;
  (** [at::typeMetaToScalarType(caffe2::DataTypeToTypeMeta(.))] *)
  typeMetaToScalarType : DataType → option ScalarType;
  (** [at::CPU(type).typeMeta().itemsize()] *)
  itemsize : ScalarType → N;
  (** [google::protobuf::util::JsonToBinaryString]: [None] when the returned
      status is not ok *)
  JsonToBinaryString : bytes → option bytes;
  (** [ModelDef::ParseFromString]: [None] when it returns false *)
  ParseFromString : bytes → option ModelDef
}.

(** ** Storages and tensors *)

(** [at::StorageImpl]: element type, data and number of elements. *)
Record StorageImpl := mkStorageImpl {
  st_dtype : ScalarType;
  st_data : bytes;
  st_numel : N
}.

(** A variable over a storage: the view built by [_th_tensor] and
    [make_variable]. *)
Record Tensor := mkTensor {
  t_storage : Storage;
  t_offset : Z;
  t_dims : list Z;
  t_strides : list Z;
  t_dtype : ScalarType;
  t_requires_grad : bool
}.

Definition _th_tensor (type : ScalarType) (storage : Storage) (off : Z)
    (dims strides : list Z) : Tensor :=
  mkTensor storage off dims strides type false.

Definition make_variable (t : Tensor) (requires_grad : bool) : Tensor :=
  mkTensor (t_storage t) (t_offset t) (t_dims t) (t_strides t) (t_dtype t)
           requires_grad.

Section Deserializer.

(** The object graph owned by the caller and the handles
    ([std::shared_ptr<script::Module>]) into it. *)
Context {World ModuleHandle : Type}.

(** [ModuleLookup]: a callback from a qualified name to a module; it may
    create modules and it may throw. *)
Definition ModuleLookup := list string → World → option (ModuleHandle * World).

(** The members of [script::Module] used by [convertModule], and
    [import_methods] (torch/csrc/jit/import_method.h). *)
Class ModuleApi := {
  set_optimized : ModuleHandle → bool → World → World;
  register_parameter : ModuleHandle → string → Tensor → bool → World → World;
  import_methods : ModuleHandle → bytes → list Tensor → World → option World
}.

Context `{RT : !Runtime} `{API : !ModuleApi}.

(** Calls that leave this file, in the order they are made. *)
Inductive Event :=
| EvGetLastRecord
| EvGetRecordWithKey (key : N)
| EvModuleLookup (qualified_name : list string)
| EvSetOptimized (module : ModuleHandle) (o : bool)
| EvRegisterParameter (module : ModuleHandle) (pname : string) (t : Tensor) (is_buf : bool)
| EvImportMethods (module : ModuleHandle) (data_str : bytes) (table : list Tensor).

(** The mutable members of the deserializer ([moduleStack_],
    [tensor_table_]), the heap of storages, the caller's object graph and the
    trace. The members [reader_] and [moduleLookup_] do not change once set
    and are passed explicitly. *)
Record State := mkState {
  world : World;
  moduleStack_ : list string;
  tensor_table_ : list Tensor;
  heap : list StorageImpl;
  trace : list Event
}.

Definition M (A : Type) : Type := State → outcome A * State.

Definition ret {A} (a : A) : M A := fun s => (Ret a, s).

Definition throw {A} (e : Error) : M A := fun s => (Throw e, s).

Definition bind {A B} (m : M A) (k : A → M B) : M B :=
  fun s => match m s with
           | (Ret a, s') => k a s'
           | (Throw e, s') => (Throw e, s')
           end.

Notation "x <- m ;; k" := (bind m (fun x => k))
  (at level 100, m at next level, right associativity).
Notation "m ;; k" := (bind m (fun _ => k))
  (at level 100, right associativity).

Definition gets {A} (f : State → A) : M A := fun s => (Ret (f s), s).

Definition lift_option {A} (e : Error) (o : option A) : M A :=
  match o with
  | Some a => ret a
  | None => throw e
  end.

(** Modelled from the spec: the assertion macros [AT_ASSERT], [AT_ASSERTM],
    [JIT_ASSERT] and [AT_CHECK] are declared outside this file; a failed
    assertion fails the call with the corresponding error of the taxonomy. *)
Definition assert (e : Error) (cond : bool) : M unit :=
  if cond then ret tt else throw e.

(** The state once the call [e] has been recorded. *)
Definition logged (s : State) (e : Event) : State :=
  mkState (world s) (moduleStack_ s) (tensor_table_ s) (heap s) (trace s ++ [e]).

Definition log (e : Event) : M unit := fun s => (Ret tt, logged s e).

(** *** The calls on [reader_] *)

Definition reader_getLastRecord (reader_ : PyTorchStreamReader) : M bytes :=
  log EvGetLastRecord ;;
  lift_option ArchiveReadError (getLastRecord reader_).

Definition reader_getRecordWithKey (reader_ : PyTorchStreamReader) (key : N)
    : M bytes :=
  log (EvGetRecordWithKey key) ;;
  lift_option ArchiveReadError (getRecordWithKey reader_ key).

(** *** Storages and the tensor table *)

(** The constructor [at::Storage(...)] allocates a fresh [StorageImpl]. *)
Definition new_Storage (impl : StorageImpl) : M Storage :=
  fun s => (Ret (length (heap s)),
            mkState (world s) (moduleStack_ s) (tensor_table_ s)
                    (heap s ++ [impl]) (trace s)).

Definition tensor_table_emplace_back (t : Tensor) : M unit :=
  fun s => (Ret tt,
            mkState (world s) (moduleStack_ s) (tensor_table_ s ++ [t])
                    (heap s) (trace s)).

(** [std::vector::at] on an [int64] index: the index is converted to
    [size_t] (modulo 2^64) and checked against the size. *)
Definition vector_at (v : list Tensor) (i : Z) : option Tensor :=
  v !! Z.to_nat (i `mod` 2 ^ 64)%Z.

Definition tensor_table_at (i : Z) : M Tensor :=
  table <- gets tensor_table_ ;;
  lift_option InvalidTensorIdError (vector_at table i).

(** *** [moduleStack_] *)

Definition moduleStack_emplace_back (n : string) : M unit :=
  fun s => (Ret tt,
            mkState (world s) (moduleStack_ s ++ [n]) (tensor_table_ s)
                    (heap s) (trace s)).

Definition moduleStack_pop_back : M unit :=
  fun s => (Ret tt,
            mkState (world s) (removelast (moduleStack_ s)) (tensor_table_ s)
                    (heap s) (trace s)).

(** *** The calls on the caller's modules *)

Definition set_world (w : World) (s : State) : State :=
  mkState w (moduleStack_ s) (tensor_table_ s) (heap s) (trace s).

Definition call_moduleLookup (moduleLookup_ : ModuleLookup) : M ModuleHandle :=
  stack <- gets moduleStack_ ;;
  log (EvModuleLookup stack) ;;
  fun s => match moduleLookup_ stack (world s) with
           | Some (module, w) => (Ret module, set_world w s)
           | None => (Throw ModuleLookupError, s)
           end.

Definition call_set_optimized (module : ModuleHandle) (o : bool) : M unit :=
  log (EvSetOptimized module o) ;;
  fun s => (Ret tt, set_world (set_optimized module o (world s)) s).

Definition call_register_parameter (module : ModuleHandle) (pname : string)
    (t : Tensor) (is_buf : bool) : M unit :=
  log (EvRegisterParameter module pname t is_buf) ;;
  fun s => (Ret tt, set_world (register_parameter module pname t is_buf (world s)) s).

Definition call_import_methods (module : ModuleHandle) (data_str : bytes)
    (table : list Tensor) : M unit :=
  log (EvImportMethods module data_str table) ;;
  fun s => match import_methods module data_str table (world s) with
           | Some w => (Ret tt, set_world w s)
           | None => (Throw CodeLoaderError, s)
           end.

(** A [for] loop over a repeated field. *)
Definition for_each {A} (body : A → M unit) : list A → M unit :=
  fix loop (l : list A) : M unit :=
    match l with
    | [] => ret tt
    | x :: rest => body x ;; loop rest
    end.

(** ** [ScriptModuleDeserializer::loadTensor] (lines 114-138)

    [storageMap] is passed by reference: the map after the call is returned
    next to the tensor. *)
Definition loadTensor (reader_ : PyTorchStreamReader) (tensor_proto : TensorDef)
    (storageMap : gmap N Storage) : M (Tensor * gmap N Storage) :=
  let dims_ := dims tensor_proto in
  let strides_ := strides tensor_proto in
  type <- lift_option UnsupportedDataTypeError
            (typeMetaToScalarType (data_type tensor_proto)) ;;
  record_id <- lift_option InvalidRecordKeyError
                 (stoull (ref_key (data tensor_proto))) ;;
  storage_it <-
    match storageMap !! record_id with
    | None =>
        storage_ptr <- reader_getRecordWithKey reader_ record_id ;;
        let record_size := N.of_nat (length storage_ptr) in
        assert StorageSizeMismatchError
          (record_size =? ref_size (data tensor_proto))%N ;;
        storage <- new_Storage
          (mkStorageImpl type storage_ptr (record_size / itemsize type)%N) ;;
        ret (storage, <[record_id := storage]> storageMap)
    | Some storage => ret (storage, storageMap)
    end ;;
  let t := _th_tensor type (fst storage_it) (offset tensor_proto) dims_ strides_ in
  ret (make_variable t (requires_grad tensor_proto), snd storage_it).

(** ** [ScriptModuleDeserializer::loadTensorTable] (lines 107-112) *)

Fixpoint loadTensorTable_loop (reader_ : PyTorchStreamReader)
    (tensors_ : list TensorDef) (storageMap : gmap N Storage) : M unit :=
  match tensors_ with
  | [] => ret tt
  | tensor :: rest =>
      r <- loadTensor reader_ tensor storageMap ;;
      tensor_table_emplace_back (fst r) ;;
      loadTensorTable_loop reader_ rest (snd r)
  end.

Definition loadTensorTable (reader_ : PyTorchStreamReader) (model_def : ModelDef)
    : M unit :=
  let storageMap : gmap N Storage := ∅ in
  loadTensorTable_loop reader_ (tensors model_def) storageMap.

(** ** [ScriptModuleDeserializer::convertModule] (lines 140-162) *)

(** The body of the loop over [module_def.parameters()] (lines 151-154). *)
Definition convertParameter (module : ModuleHandle) (param_def : ParameterDef)
    : M unit :=
  tensor <- tensor_table_at (tensor_id param_def) ;;
  call_register_parameter module (param_name param_def) tensor
    (is_buffer param_def).

(** The code arena of the module (lines 156-161). *)
Definition convertArena (reader_ : PyTorchStreamReader) (module : ModuleHandle)
    (arena : RecordRef) : M unit :=
  key <- lift_option InvalidRecordKeyError (stoull (ref_key arena)) ;;
  data_ <- reader_getRecordWithKey reader_ key ;;
  let size_ := N.of_nat (length data_) in
  assert CodeArenaSizeMismatchError (size_ =? ref_size arena)%N ;;
  let data_str := data_ in
  table <- gets tensor_table_ ;;
  call_import_methods module data_str table.

Fixpoint convertModule (moduleLookup_ : ModuleLookup)
    (reader_ : PyTorchStreamReader) (module_def : ModuleDef) {struct module_def}
    : M unit :=
  module <- call_moduleLookup moduleLookup_ ;;
  call_set_optimized module (optimize module_def) ;;
  for_each (fun sub_def =>
      moduleStack_emplace_back (name sub_def) ;;
      convertModule moduleLookup_ reader_ sub_def ;;
      moduleStack_pop_back)
    (submodules module_def) ;;
  for_each (convertParameter module) (parameters module_def) ;;
  convertArena reader_ module (torchscript_arena module_def).

(** ** [ScriptModuleDeserializer::deserialize] (lines 70-105) *)

Definition deserialize (reader_ : PyTorchStreamReader)
    (module_lookup : ModuleLookup) : M unit :=
  json_string <- reader_getLastRecord reader_ ;;
  binary_string <- lift_option MetadataTranscodeError
                     (JsonToBinaryString json_string) ;;
  model_def <- lift_option SchemaValidationError
                 (ParseFromString binary_string) ;;
  let moduleLookup_ := module_lookup in
  let module_def := main_module model_def in
  loadTensorTable reader_ model_def ;;
  convertModule moduleLookup_ reader_ module_def.

(** ** The constructors and [import_ir_module] (lines 61-68, 166-178) *)

(** A freshly constructed deserializer: empty [moduleStack_] and
    [tensor_table_]. *)
Definition new_deserializer (w : World) : State := mkState w [] [] [] [].

(** [ScriptModuleDeserializer(std::istream* is)]: [reader_(is)]. *)
Definition ScriptModuleDeserializer_istream (is_ : istream)
    : option PyTorchStreamReader :=
  PyTorchStreamReader_new is_.

(** [ScriptModuleDeserializer(const std::string& filename)]: [ifs_] is opened
    on the file and [reader_(&ifs_)] is built over it, whatever the state of
    [ifs_]. *)
Definition ScriptModuleDeserializer_filename (fs : FileSystem) (filename : string)
    : option PyTorchStreamReader :=
  let ifs_ := ifstream fs filename in
  PyTorchStreamReader_new ifs_.

Definition run_deserializer (deserializer : option PyTorchStreamReader)
    (module_lookup : ModuleLookup) (w : World) : outcome unit * State :=
  match deserializer with
  | Some reader_ => deserialize reader_ module_lookup (new_deserializer w)
  | None => (Throw ArchiveReadError, new_deserializer w)
  end.

Definition import_ir_module_istream (module_lookup : ModuleLookup) (in_ : istream)
    (w : World) : outcome unit * State :=
  run_deserializer (ScriptModuleDeserializer_istream in_) module_lookup w.

Definition import_ir_module_filename (module_lookup : ModuleLookup)
    (fs : FileSystem) (filename : string) (w : World) : outcome unit * State :=
  run_deserializer (ScriptModuleDeserializer_filename fs filename) module_lookup w.

End Deserializer.

(** ** [script::Module] and [load] (lines 180-208) *)

(** Modelled from the spec: [script::Module] (torch/csrc/jit/script/module.h)
    is not part of this file. A module holds its optimize flag, its
    submodules in registration order keyed by name, its parameters keyed by
    name with their buffer/parameter classification, and the code the code
    loader gave it (opaque). *)
Inductive ScriptModule := mkScriptModule {
  optimized : bool;
  modules : list (string * ScriptModule);
  module_parameters : list (string * (Tensor * bool));
  methods : list bytes
}.

(** [std::make_shared<script::Module>()] *)
Definition new_ScriptModule : ScriptModule := mkScriptModule true [] [] [].

Definition has_key {A} (n : string) (l : list (string * A)) : bool :=
  existsb (fun nc => bool_decide (nc.1 = n)) l.

(** Apply [f] to the entry registered under [n] (the first one). *)
Fixpoint alter_entry {A} (n : string) (f : A → A) (l : list (string * A))
    : list (string * A) :=
  match l with
  | [] => []
  | (n', c) :: rest =>
      if bool_decide (n' = n) then (n', f c) :: rest
      else (n', c) :: alter_entry n f rest
  end.

(** [find_module(name) != nullptr] *)
Definition find_module (n : string) (m : ScriptModule) : bool :=
  has_key n (modules m).

Definition register_module (n : string) (child : ScriptModule) (m : ScriptModule)
    : ScriptModule :=
  mkScriptModule (optimized m) (modules m ++ [(n, child)]) (module_parameters m)
                 (methods m).

(** What happens to [m] when the module [get_module(n)] points to is mutated
    by [f]. *)
Definition update_module (n : string) (f : ScriptModule → ScriptModule)
    (m : ScriptModule) : ScriptModule :=
  mkScriptModule (optimized m) (alter_entry n f (modules m)) (module_parameters m)
                 (methods m).

Definition set_optimized_on (o : bool) (m : ScriptModule) : ScriptModule :=
  mkScriptModule o (modules m) (module_parameters m) (methods m).

(** Modelled from the spec: [script::Module::register_parameter] is not part
    of this file. The tensor is registered under the given name as a buffer or
    as a trainable parameter; the parameters are keyed by name, so a name
    registered again takes the new tensor and classification. *)
Definition register_parameter_on (n : string) (v : Tensor) (is_buf : bool)
    (m : ScriptModule) : ScriptModule :=
  mkScriptModule (optimized m) (modules m)
    (if has_key n (module_parameters m)
     then alter_entry n (fun _ => (v, is_buf)) (module_parameters m)
     else module_parameters m ++ [(n, (v, is_buf))])
    (methods m).

(** The code loader [import_methods] acting on one module;
    [None] when it throws. *)
Class CodeLoader := {
  import_methods_on : ScriptModule → bytes → list Tensor → option ScriptModule
}.

(** A [std::shared_ptr<script::Module>] into the tree under the root that
    [load] creates is modelled by the path of names leading to the module:
    modules are never removed from the tree, so a path keeps denoting the same
    module. *)
Fixpoint at_path (h : list string) (f : ScriptModule → ScriptModule)
    (m : ScriptModule) : ScriptModule :=
  match h with
  | [] => f m
  | n :: h' => update_module n (at_path h' f) m
  end.

Fixpoint module_at (h : list string) (m : ScriptModule) : option ScriptModule :=
  match h with
  | [] => Some m
  | n :: h' =>
      match find (fun nc => bool_decide (nc.1 = n)) (modules m) with
      | Some (_, c) => module_at h' c
      | None => None
      end
  end.

Definition load_ModuleApi `{CL : !CodeLoader} : @ModuleApi ScriptModule (list string) :=
  {| set_optimized h o root := at_path h (set_optimized_on o) root;
     register_parameter h n v is_buf root :=
       at_path h (register_parameter_on n v is_buf) root;
     import_methods h data_str table root :=
       match module_at h root with
       | Some m =>
           match import_methods_on m data_str table with
           | Some m' => Some (at_path h (fun _ => m') root)
           | None => None
           end
       | None => None
       end |}.

(** The lambda [module_lookup] of [load] (lines 183-192): walk down from the
    root, registering a fresh module wherever a name is not found. The result
    is the root after the walk; the pointer returned is the path. *)
Fixpoint module_lookup_walk (qualified_name : list string) (curr : ScriptModule)
    : ScriptModule :=
  match qualified_name with
  | [] => curr
  | n :: rest =>
      let curr1 :=
        if find_module n curr then curr
        else register_module n new_ScriptModule curr in
      update_module n (module_lookup_walk rest) curr1
  end.

Definition load_module_lookup : @ModuleLookup ScriptModule (list string) :=
  fun qualified_name module =>
    Some (qualified_name, module_lookup_walk qualified_name module).

Context `{RT : !Runtime} `{CL : !CodeLoader}.

(** [load(std::istream& in)] *)
Definition load_istream (in_ : istream)
    : outcome ScriptModule * State (ModuleHandle := list string) :=
  let module := new_ScriptModule in
  let module_lookup := load_module_lookup in
  match run_deserializer (API := load_ModuleApi)
          (ScriptModuleDeserializer_istream in_) module_lookup module with
  | (Ret _, s) => (Ret (world s), s)
  | (Throw e, s) => (Throw e, s)
  end.

(** [load(const std::string& filename)] *)
Definition load_filename (fs : FileSystem) (filename : string)
    : outcome ScriptModule * State (ModuleHandle := list string) :=
  let in_ := ifstream fs filename in
  if negb (fail in_) then
    let module := load_istream in_ in
    module
  else (Throw ArchiveOpenError, new_deserializer new_ScriptModule).

End Importer.

(** ** Shapes of trees and traversal orders (used to state the properties) *)

(** The names and the order of the children, all the way down. *)
Inductive Shape := ShapeNode (children : list (string * Shape)).

Fixpoint def_shape (d : ModuleDef) : Shape :=
  ShapeNode (map (fun sub => (name sub, def_shape sub)) (submodules d)).

Fixpoint module_shape {ScalarType} (m : ScriptModule (ScalarType := ScalarType))
    : Shape :=
  ShapeNode (map (fun nc => (nc.1, module_shape nc.2)) (modules m)).

(** The qualified names of the modules of a descriptor tree, depth first,
    a module before its submodules, siblings from left to right. *)
Fixpoint preorder_paths (d : ModuleDef) : list (list string) :=
  [] :: concat (map (fun sub => map (cons (name sub)) (preorder_paths sub))
                    (submodules d)).

(** No two submodules of one module carry the same name, at any depth. *)
Fixpoint distinct_sibling_names (d : ModuleDef) : bool :=
  bool_decide (NoDup (map name (submodules d)))
  && forallb distinct_sibling_names (submodules d).

(** What the lookup lambda of [load] does to the shape of the tree. *)
Fixpoint shape_ensure (qualified_name : list string) (sh : Shape) : Shape :=
  match qualified_name with
  | [] => sh
  | n :: rest =>
      let 'ShapeNode cs := sh in
      let cs1 := if has_key n cs then cs else cs ++ [(n, ShapeNode [])] in
      ShapeNode (alter_entry n (shape_ensure rest) cs1)
  end.

Section TraceSpec.

Context {ScalarType World ModuleHandle : Type}.
Context `{RT : !Runtime (ScalarType := ScalarType)}.

Notation Event := (Event (ScalarType := ScalarType) (ModuleHandle := ModuleHandle)).

(** The qualified names handed to the lookup callback, in call order. *)
Definition lookup_paths (tr : list Event) : list (list string) :=
  omap (fun e => match e with EvModuleLookup q => Some q | _ => None end) tr.

Definition is_fetch (e : Event) : bool :=
  match e with EvGetRecordWithKey _ => true | _ => false end.

Definition is_fetch_of (k : N) (e : Event) : bool :=
  match e with EvGetRecordWithKey k' => (k' =? k)%N | _ => false end.

(** How often the record [k] was fetched by key. *)
Definition fetch_count (k : N) (tr : list Event) : nat :=
  length (List.filter (is_fetch_of k) tr).

Definition is_reader_event (e : Event) : bool :=
  match e with
  | EvGetLastRecord | EvGetRecordWithKey _ => true
  | _ => false
  end.

(** The tensor [t] is the view described by [td]. *)
Definition view_of (td : TensorDef) (ty : ScalarType) (t : Tensor) : Prop :=
  t_offset t = offset td ∧ t_dims t = dims td ∧ t_strides t = strides td ∧
  t_dtype t = ty ∧ t_requires_grad t = requires_grad td.

(** The events of a complete visit of one module of the descriptor tree at
    the qualified name [path]: the lookup, the optimize flag, the visits of
    the submodules from left to right, one registration per parameter, then
    the fetch of the code arena and the call of the code loader. *)
Inductive visit (reader_ : PyTorchStreamReader) (table : list Tensor)
    : list string → ModuleDef → list Event → Prop :=
| visit_module path module_def module tr_subs tr_params key data_ :
    visit_children reader_ table path (submodules module_def) tr_subs →
    Forall2 (fun p e => ∃ t, vector_at table (tensor_id p) = Some t ∧
               e = EvRegisterParameter module (param_name p) t (is_buffer p))
            (parameters module_def) tr_params →
    stoull (ref_key (torchscript_arena module_def)) = Some key →
    getRecordWithKey reader_ key = Some data_ →
    N.of_nat (length data_) = ref_size (torchscript_arena module_def) →
    visit reader_ table path module_def
      ([EvModuleLookup path; EvSetOptimized module (optimize module_def)]
       ++ tr_subs ++ tr_params
       ++ [EvGetRecordWithKey key; EvImportMethods module data_ table])
with visit_children (reader_ : PyTorchStreamReader) (table : list Tensor)
    : list string → list ModuleDef → list Event → Prop :=
| visit_nil path : visit_children reader_ table path [] []
| visit_cons path sub rest tr1 tr2 :
    visit reader_ table (path ++ [name sub]) sub tr1 →
    visit_children reader_ table path rest tr2 →
    visit_children reader_ table path (sub :: rest) (tr1 ++ tr2).

(** Every entry of the deduplication map points to a live storage holding
    the record of its key. *)
Definition storageMap_ok (reader_ : PyTorchStreamReader)
    (storageMap : gmap N Storage)
    (hp : list (StorageImpl (ScalarType := ScalarType))) : Prop :=
  ∀ k st, storageMap !! k = Some st →
    ∃ impl, hp !! st = Some impl ∧ getRecordWithKey reader_ k = Some (st_data impl).

(** The computation [m] never fails with the error [e0]. *)
Definition never_throws {A} (e0 : Error)
    (m : M (ScalarType := ScalarType) (World := World)
           (ModuleHandle := ModuleHandle) A) : Prop :=
  ∀ s e s', m s = (Throw e, s') → e ≠ e0.

End TraceSpec.

(** ** Further notions used to state properties of the passes *)

Section PassSpec.

Context {ScalarType World ModuleHandle : Type}.
Context `{RT : !Runtime (ScalarType := ScalarType)}.

(** The record keys the tensor descriptors reference, in list order. *)
Definition tensor_keys (ts : list TensorDef) : list N :=
  omap (fun td => stoull (ref_key (data td))) ts.

(** The deduplication map points into the heap, and no two keys share a
    storage. *)
Definition storageMap_valid (storageMap : gmap N Storage)
    (hp : list (StorageImpl (ScalarType := ScalarType))) : Prop :=
  (∀ k st, storageMap !! k = Some st → st < length hp) ∧
  (∀ k1 k2 st, storageMap !! k1 = Some st → storageMap !! k2 = Some st → k1 = k2).

(** The modules of a descriptor tree, a module before its submodules. *)
Fixpoint preorder_modules (d : ModuleDef) : list ModuleDef :=
  d :: concat (map preorder_modules (submodules d)).

(** The modules of a descriptor tree, a module after its submodules. *)
Fixpoint postorder_modules (d : ModuleDef) : list ModuleDef :=
  concat (map postorder_modules (submodules d)) ++ [d].

(** The record the code arena of a module refers to, if its key is a number
    and the reader has the record. *)
Definition arena_record (reader_ : PyTorchStreamReader) (d : ModuleDef)
    : option bytes :=
  match stoull (ref_key (torchscript_arena d)) with
  | Some key => getRecordWithKey reader_ key
  | None => None
  end.

(** The calls of the code loader, in call order: the bytes and the tensor
    table handed over. *)
Definition import_calls
    (tr : list (Event (ScalarType := ScalarType) (ModuleHandle := ModuleHandle)))
    : list (bytes * list Tensor) :=
  omap (fun e => match e with
                 | EvImportMethods _ data_str table => Some (data_str, table)
                 | _ => None
                 end) tr.

(** Whatever its outcome, the computation [m] leaves the tensor table and
    the heap of storages as they were and only appends to the trace. *)
Definition keeps_tables {A}
    (m : M (ScalarType := ScalarType) (World := World)
           (ModuleHandle := ModuleHandle) A) : Prop :=
  ∀ s o s', m s = (o, s') →
    tensor_table_ s' = tensor_table_ s ∧ heap s' = heap s ∧
    ∃ tr, trace s' = trace s ++ tr.

End PassSpec.


(** ** What a module tree holds, to compare it with a descriptor tree *)

Section LoadSpec.

Context {ScalarType : Type}.

Notation Tensor := (Tensor (ScalarType := ScalarType)).
Notation ScriptModule := (ScriptModule (ScalarType := ScalarType)).

(** The optimize flag, the registered parameters (name, tensor, buffer or
    not) and the submodules of a module, all the way down; the code of the
    modules is left out. *)
Inductive Content :=
  ContentNode (opt : bool) (params : list (string * (Tensor * bool)))
              (children : list (string * Content)).

Fixpoint module_content (m : ScriptModule) : Content :=
  ContentNode (optimized m) (module_parameters m)
              (map (fun nc => (nc.1, module_content nc.2)) (modules m)).

(** The content of [std::make_shared<script::Module>()]. *)
Definition fresh_content : Content := ContentNode true [] [].

(** Registration of a parameter in the parameters of a module, as
    [register_parameter_on] does it. *)
Definition register_in (n : string) (v : Tensor) (is_buf : bool)
    (ps : list (string * (Tensor * bool))) : list (string * (Tensor * bool)) :=
  if has_key n ps then alter_entry n (fun _ => (v, is_buf)) ps
  else ps ++ [(n, (v, is_buf))].

(** The parameters a module ends up with when the parameter descriptors
    [ps] are registered in order on a module without parameters, each with
    the tensor of the table at its id. *)
Definition def_parameters (table : list Tensor) (ps : list ParameterDef)
    : list (string * (Tensor * bool)) :=
  foldl (fun acc p =>
           match vector_at table (tensor_id p) with
           | Some t => register_in (param_name p) t (is_buffer p) acc
           | None => acc
           end) [] ps.

(** The content a descriptor tree describes, over a tensor table. *)
Fixpoint def_content (table : list Tensor) (d : ModuleDef) : Content :=
  ContentNode (optimize d) (def_parameters table (parameters d))
              (map (fun sub => (name sub, def_content table sub)) (submodules d)).

(** Does the qualified name lead to a module? *)
Fixpoint has_path (q : list string) (c : Content) : bool :=
  match q with
  | [] => true
  | n :: rest =>
      let 'ContentNode _ _ cs := c in
      match find (fun nc => bool_decide (nc.1 = n)) cs with
      | Some (_, c') => has_path rest c'
      | None => false
      end
  end.

(** [at_path] on contents. *)
Fixpoint content_at (h : list string) (f : Content → Content) (c : Content)
    : Content :=
  match h with
  | [] => f c
  | n :: h' =>
      let 'ContentNode o ps cs := c in
      ContentNode o ps (alter_entry n (content_at h' f) cs)
  end.

(** The lookup lambda of [load] on contents. *)
Fixpoint content_ensure (q : list string) (c : Content) : Content :=
  match q with
  | [] => c
  | n :: rest =>
      let 'ContentNode o ps cs := c in
      let cs1 := if has_key n cs then cs else cs ++ [(n, fresh_content)] in
      ContentNode o ps (alter_entry n (content_ensure rest) cs1)
  end.

Definition ensure_child (n : string) (c : Content) : Content :=
  let 'ContentNode o ps cs := c in
  ContentNode o ps (if has_key n cs then cs else cs ++ [(n, fresh_content)]).

Definition alter_child (n : string) (f : Content → Content) (c : Content)
    : Content :=
  let 'ContentNode o ps cs := c in ContentNode o ps (alter_entry n f cs).

Definition set_content_optimized (o : bool) (c : Content) : Content :=
  let 'ContentNode _ ps cs := c in ContentNode o ps cs.

Definition register_content (table : list Tensor) (c : Content) (p : ParameterDef)
    : Content :=
  match vector_at table (tensor_id p) with
  | Some t =>
      let 'ContentNode o ps cs := c in
      ContentNode o (register_in (param_name p) t (is_buffer p) ps) cs
  | None => c
  end.

(** What a successful build of the descriptor [d] does to the content of
    the module it is looked up as: the flag, then the submodules from left to
    right (each looked up, created when absent, and built), then the
    parameters. *)
Fixpoint build_content (table : list Tensor) (d : ModuleDef) (c : Content)
    : Content :=
  foldl (register_content table)
    (foldl (fun acc sub =>
              alter_child (name sub) (build_content table sub)
                          (ensure_child (name sub) acc))
           (set_content_optimized (optimize d) c) (submodules d))
    (parameters d).

(** No two parameter descriptors of one module carry the same name, at any
    depth. *)
Fixpoint distinct_parameter_names (d : ModuleDef) : bool :=
  bool_decide (NoDup (map param_name (parameters d)))
  && forallb distinct_parameter_names (submodules d).

(** The parameter descriptors as they stand: name, tensor of the table at
    the id, classification, in descriptor order. *)
Definition declared_parameters (table : list Tensor) (ps : list ParameterDef)
    : list (string * (Tensor * bool)) :=
  omap (fun p => match vector_at table (tensor_id p) with
                 | Some t => Some (param_name p, (t, is_buffer p))
                 | None => None
                 end) ps.

Fixpoint declared_content (table : list Tensor) (d : ModuleDef) : Content :=
  ContentNode (optimize d) (declared_parameters table (parameters d))
              (map (fun sub => (name sub, declared_content table sub))
                   (submodules d)).

End LoadSpec.


(** ** A concrete runtime and a few archives, to run the deserializer on *)

Module Demo.

Local Open Scope string_scope.

Inductive scalar := kFloat | kByte.

(** A stand-in for [caffe2::stoull], following [std::stoull] in base 10:
    leading white space is skipped, one sign is accepted, the longest run of
    digits is read and what follows it is ignored; no digit at all, or a
    number of 2^64 or more, is an exception; a number after a minus sign is
    negated modulo 2^64. *)
Definition is_space (a : Ascii.ascii) : bool :=
  let d := Ascii.N_of_ascii a in
  ((d =? 32) || ((9 <=? d) && (d <=? 13)))%N.

Fixpoint skip_spaces (s : string) : string :=
  match s with
  | String a rest => if is_space a then skip_spaces rest else s
  | EmptyString => s
  end.

(** The digits at the head of [s], read after the digits that gave [acc]
    ([None] while no digit has been read). *)
Fixpoint parse_digits (s : string) (acc : option N) : option N :=
  match s with
  | EmptyString => acc
  | String a rest =>
      let d := Ascii.N_of_ascii a in
      if ((48 <=? d) && (d <=? 57))%N
      then parse_digits rest
             (Some (10 * match acc with Some n => n | None => 0 end + (d - 48))%N)
      else acc
  end.

Definition parse_u64 (s : string) : option N :=
  let s1 := skip_spaces s in
  let signed :=
    match s1 with
    | String a rest =>
        if (Ascii.N_of_ascii a =? 45)%N then (true, rest)
        else if (Ascii.N_of_ascii a =? 43)%N then (false, rest)
        else (false, s1)
    | EmptyString => (false, s1)
    end in
  match parse_digits signed.2 None with
  | Some n =>
      if (n <? 2 ^ 64)%N
      then Some (if signed.1 then ((2 ^ 64 - n) mod 2 ^ 64)%N else n)
      else None
  | None => None
  end.

Definition arena0 : RecordRef := mkRecordRef "0" 0%N.

Definition leaf (n : string) : ModuleDef := mkModuleDef n false [] [] arena0.

(** A float tensor of 20 elements over the record 7, declared with [sz]
    bytes. *)
Definition tensor7 (sz : N) : TensorDef :=
  mkTensorDef [20%Z] [1%Z] 0%Z 1%Z false (mkRecordRef "7" sz).

Definition weight : ParameterDef := mkParameterDef "weight" 0%Z false.
Definition running_mean : ParameterDef := mkParameterDef "running_mean" 1%Z true.

(** One module, a parameter and a buffer over the same record. *)
Definition model_alias : ModelDef :=
  mkModelDef (mkModuleDef "main" true [] [weight; running_mean] arena0)
             [tensor7 80%N; tensor7 80%N].

(** The second reference to the record 7 declares 100 bytes. *)
Definition model_second_size : ModelDef :=
  mkModelDef (mkModuleDef "main" true [] [weight; running_mean] arena0)
             [tensor7 80%N; tensor7 100%N].

(** The first reference to the record 7 declares 100 bytes. *)
Definition model_first_size : ModelDef :=
  mkModelDef (leaf "main") [tensor7 100%N].

(** Two submodules named [a]. *)
Definition def_dup : ModuleDef :=
  mkModuleDef "main" true [leaf "a"; leaf "a"] [] arena0.

(** Submodules [a] (with a submodule [c]) and [b]. *)
Definition def_tree : ModuleDef :=
  mkModuleDef "main" true
    [mkModuleDef "a" false [leaf "c"] [] arena0; leaf "b"] [] arena0.

Definition model_tree : ModelDef := mkModelDef def_tree [].

(** A float tensor over the record 16, which holds 10 bytes. *)
Definition tensor16 : TensorDef :=
  mkTensorDef [2%Z] [1%Z] 0%Z 1%Z true (mkRecordRef "16" 10%N).

(** The storage records of the archives: an empty code arena under the key
    0, 80 bytes under 7, 10 bytes under 16. *)
Definition records (k : N) : option bytes :=
  if (k =? 0)%N then Some []
  else if (k =? 7)%N then Some (repeat x00 80)
  else if (k =? 16)%N then Some (repeat x00 10)
  else None.

(** The reader over an archive whose last record is [metadata]. *)
Definition reader_of (metadata : bytes) : PyTorchStreamReader :=
  mkReader (Some metadata) records.

(** The transcoder accepts every text but the unbalanced [{], and the
    parser knows the messages above by name. *)
Definition runtime : Runtime (ScalarType := scalar) :=
  {| PyTorchStreamReader_new := fun in_ =>
       if fail in_ then None else Some (reader_of (content in_));
     stoull := parse_u64;
     typeMetaToScalarType := fun dt =>
       if (dt =? 1)%Z then Some kFloat
       else if (dt =? 3)%Z then Some kByte else None;
     itemsize := fun ty => match ty with kFloat => 4%N | kByte => 1%N end;
     JsonToBinaryString := fun json =>
       if String.eqb (string_of_list_byte json) "{" then None else Some json;
     ParseFromString := fun bin =>
       let msg := string_of_list_byte bin in
       if String.eqb msg "alias" then Some model_alias
       else if String.eqb msg "second_size" then Some model_second_size
       else if String.eqb msg "first_size" then Some model_first_size
       else if String.eqb msg "tree" then Some model_tree
       else None |}.

(** A code loader that stores the arena in the module. *)
Definition loader : CodeLoader (ScalarType := scalar) :=
  {| import_methods_on := fun m data_str _ =>
       Some (mkScriptModule (optimized m) (modules m) (module_parameters m)
                            (methods m ++ [data_str])) |}.

Definition archive (metadata : string) : istream :=
  mkIstream false (list_byte_of_string metadata).

(** A file system with one archive. *)
Definition files : FileSystem :=
  fun path => if String.eqb path "model.pt"
              then Some (list_byte_of_string "alias") else None.

(** A deserializer state whose tensor table holds two tensors. *)
Definition two_tensors
    : State (World := ScriptModule (ScalarType := scalar))
            (ModuleHandle := list string) :=
  mkState new_ScriptModule [] [mkTensor 0 0%Z [20%Z] [1%Z] kFloat false;
                               mkTensor 0 0%Z [20%Z] [1%Z] kFloat true]
          [mkStorageImpl kFloat (repeat x00 80) 20%N] [].

(** The state of a fresh deserializer whose lookup callback is the one of
    [load]. *)
Definition fresh
    : State (ScalarType := scalar)
            (World := ScriptModule (ScalarType := scalar))
            (ModuleHandle := list string) :=
  new_deserializer new_ScriptModule.

(** The reader over the archive whose metadata record is the text [msg]. *)
Definition reader (msg : string) : PyTorchStreamReader :=
  reader_of (list_byte_of_string msg).


(** A module without submodules whose code arena is the record 7 (80 bytes),
    declared with 100 bytes. *)
Definition def_bad_arena : ModuleDef :=
  mkModuleDef "main" true [] [weight; running_mean] (mkRecordRef "7" 100%N).

(** The state after the tensor pass over [model_alias]. *)
Definition alias_tensors
    : State (ScalarType := scalar)
            (World := ScriptModule (ScalarType := scalar))
            (ModuleHandle := list string) :=
  (loadTensorTable (RT := runtime) (reader "alias") model_alias fresh).2.

(** [load] on the archive whose metadata record is the text [msg]. *)
Definition loaded (msg : string) :=
  load_istream (RT := runtime) (CL := loader) (archive msg).

(** [deserialize], driven by the lookup of [load], on the archive whose
    metadata record is the text [msg]. *)
Definition deserialized (msg : string) :=
  deserialize (RT := runtime) (API := load_ModuleApi (CL := loader))
    (reader msg) load_module_lookup fresh.

(** The build of a descriptor tree, driven by the lookup of [load], from a
    fresh root and an empty tensor table. *)
Definition built (d : ModuleDef) :=
  convertModule (RT := runtime) (API := load_ModuleApi (CL := loader))
    load_module_lookup (reader "") d fresh.

End Demo.


(** * Properties *)

(** Induction over a descriptor tree, with the hypothesis available for every
    submodule. *)
Lemma ModuleDef_tree_ind (P : ModuleDef → Prop) :
  (∀ n o subs ps arena, Forall P subs → P (mkModuleDef n o subs ps arena)) →
  ∀ d, P d.
Proof.
  intros step. fix IH 1. intros [n o subs ps arena]. apply step.
  induction subs as [|sub subs IHsubs]; constructor; [apply IH | exact IHsubs].
Qed.

Section Facts.

Context {ScalarType World ModuleHandle : Type}.
Context `{RT : !Runtime (ScalarType := ScalarType)}.
Context `{API : !ModuleApi (ScalarType := ScalarType) (World := World)
                           (ModuleHandle := ModuleHandle)}.

Notation State := (State (ScalarType := ScalarType) (World := World)
                         (ModuleHandle := ModuleHandle)).
Notation M := (M (ScalarType := ScalarType) (World := World)
                 (ModuleHandle := ModuleHandle)).
Notation Event := (Event (ScalarType := ScalarType) (ModuleHandle := ModuleHandle)).
Notation StorageImpl := (StorageImpl (ScalarType := ScalarType)).
Notation Tensor := (Tensor (ScalarType := ScalarType)).
Notation never_throws := (never_throws (ScalarType := ScalarType) (World := World)
                            (ModuleHandle := ModuleHandle)).

Implicit Types (s : State) (reader : PyTorchStreamReader).

(** ** Runs of the monad *)

Lemma bind_Ret_inv {A B} (m : M A) (k : A → M B) s b s2 :
  bind m k s = (Ret b, s2) →
  ∃ a s1, m s = (Ret a, s1) ∧ k a s1 = (Ret b, s2).
Proof.
  unfold bind. destruct (m s) as [[a|e] s1]; [eauto | discriminate].
Qed.

Lemma bind_Ret_run {A B} (m : M A) (k : A → M B) s a s1 :
  m s = (Ret a, s1) → bind m k s = k a s1.
Proof. unfold bind. intros ->. reflexivity. Qed.

Lemma bind_Throw_run {A B} (m : M A) (k : A → M B) s e s1 :
  m s = (Throw e, s1) → bind m k s = (Throw e, s1).
Proof. unfold bind. intros ->. reflexivity. Qed.

Lemma fetch_count_app k (tr1 tr2 : list Event) :
  fetch_count k (tr1 ++ tr2) = fetch_count k tr1 + fetch_count k tr2.
Proof. unfold fetch_count. rewrite List.filter_app, length_app. reflexivity. Qed.

(** ** loadTensor, case by case *)

Lemma loadTensor_run reader td sm s :
  loadTensor reader td sm s =
  match typeMetaToScalarType (data_type td) with
  | None => (Throw UnsupportedDataTypeError, s)
  | Some ty =>
    match stoull (ref_key (data td)) with
    | None => (Throw InvalidRecordKeyError, s)
    | Some k =>
      match sm !! k with
      | Some st =>
          (Ret (mkTensor st (offset td) (dims td) (strides td) ty
                         (requires_grad td), sm), s)
      | None =>
        match getRecordWithKey reader k with
        | None => (Throw ArchiveReadError, logged s (EvGetRecordWithKey k))
        | Some rec =>
            if (N.of_nat (length rec) =? ref_size (data td))%N then
              (Ret (mkTensor (length (heap s)) (offset td) (dims td) (strides td)
                             ty (requires_grad td),
                    <[k := length (heap s)]> sm),
               mkState (world s) (moduleStack_ s) (tensor_table_ s)
                 (heap s ++ [mkStorageImpl ty rec
                               (N.of_nat (length rec) / itemsize ty)%N])
                 (trace s ++ [EvGetRecordWithKey k]))
            else (Throw StorageSizeMismatchError, logged s (EvGetRecordWithKey k))
        end
      end
    end
  end.
Proof.
  unfold loadTensor, bind, lift_option.
  destruct (typeMetaToScalarType (data_type td)) as [ty|]; [|reflexivity].
  cbn. destruct (stoull (ref_key (data td))) as [k|]; [|reflexivity].
  cbn. destruct (sm !! k) as [st|]; [reflexivity|].
  unfold reader_getRecordWithKey, bind, lift_option, log. cbn.
  destruct (getRecordWithKey reader k) as [rec|]; [|reflexivity].
  cbn. unfold assert.
  destruct (N.of_nat (length rec) =? ref_size (data td))%N; reflexivity.
Qed.

(** ** The loop of loadTensorTable *)

Lemma storageMap_ok_grow reader sm (hp hp' : list StorageImpl) :
  storageMap_ok reader sm hp → storageMap_ok reader sm (hp ++ hp').
Proof.
  intros Hok k st Hk. destruct (Hok k st Hk) as (impl & Hh & Hr).
  exists impl. split; [|exact Hr]. apply lookup_app_l_Some. exact Hh.
Qed.

Lemma loadTensorTable_loop_Ret reader ts : ∀ sm s s',
  storageMap_ok reader sm (heap s) →
  loadTensorTable_loop reader ts sm s = (Ret tt, s') →
  ∃ sm' tbl hp tr,
    world s' = world s ∧ moduleStack_ s' = moduleStack_ s ∧
    tensor_table_ s' = tensor_table_ s ++ tbl ∧
    heap s' = heap s ++ hp ∧
    trace s' = trace s ++ tr ∧
    length tbl = length ts ∧
    sm ⊆ sm' ∧
    storageMap_ok reader sm' (heap s') ∧
    Forall (fun e => is_fetch e = true) tr ∧
    (∀ k, fetch_count k tr =
          match sm !! k, sm' !! k with None, Some _ => 1 | _, _ => 0 end) ∧
    (∀ i td, ts !! i = Some td →
       ∃ k ty t, stoull (ref_key (data td)) = Some k ∧
                 typeMetaToScalarType (data_type td) = Some ty ∧
                 tbl !! i = Some t ∧ sm' !! k = Some (t_storage t) ∧
                 view_of td ty t).
Proof.
  induction ts as [|td ts IH]; intros sm s s' Hok Hrun.
  - cbn in Hrun. injection Hrun as <-.
    exists sm, [], [], []. rewrite !app_nil_r.
    repeat split; try done.
    intros k. destruct (sm !! k); reflexivity.
  - cbn [loadTensorTable_loop] in Hrun.
    apply bind_Ret_inv in Hrun as ([t sm1] & s1 & Hld & Hrun).
    apply bind_Ret_inv in Hrun as ([] & s2 & Hpush & Hrun).
    cbn [fst snd] in *.
    unfold tensor_table_emplace_back in Hpush. injection Hpush as <-.
    rewrite loadTensor_run in Hld.
    destruct (typeMetaToScalarType (data_type td)) as [ty|] eqn:Hty; [|discriminate].
    destruct (stoull (ref_key (data td))) as [k0|] eqn:Hk0; [|discriminate].
    destruct (sm !! k0) as [st|] eqn:Hsm.
    + (* the key is already in the map *)
      injection Hld as <- <- <-.
      apply IH in Hrun as (sm' & tbl & hp & tr & Hw & Hst & Htb & Hhp & Htr
                           & Hlen & Hsub & Hok' & Hfe & Hcnt & Hview);
        [|exact Hok].
      cbn in Hw, Hst, Htb, Hhp, Htr.
      exists sm', (mkTensor st (offset td) (dims td) (strides td) ty
                           (requires_grad td) :: tbl), hp, tr.
      rewrite Htb, <- app_assoc. cbn [app length].
      repeat split; try done; try lia.
      intros [|i] td' Hi; cbn in Hi.
      * injection Hi as <-. exists k0, ty. eexists. repeat split; try done.
        cbn. eapply lookup_weaken; eauto.
      * apply Hview in Hi. exact Hi.
    + (* first reference: the record is fetched *)
      destruct (getRecordWithKey reader k0) as [rec|] eqn:Hrec; [|discriminate].
      destruct (N.of_nat (length rec) =? ref_size (data td))%N eqn:Hsz;
        [|discriminate].
      injection Hld as <- <- <-.
      apply IH in Hrun as (sm' & tbl & hp & tr & Hw & Hst & Htb & Hhp & Htr
                           & Hlen & Hsub & Hok' & Hfe & Hcnt & Hview).
      * cbn in Hw, Hst, Htb, Hhp, Htr.
        exists sm', (mkTensor (length (heap s)) (offset td) (dims td) (strides td)
                             ty (requires_grad td) :: tbl),
               (mkStorageImpl ty rec (N.of_nat (length rec) / itemsize ty)%N :: hp),
               (EvGetRecordWithKey k0 :: tr).
        rewrite Htb, Hhp, Htr, <- !app_assoc. cbn [app length].
        assert (Hin : sm' !! k0 = Some (length (heap s))).
        { eapply lookup_weaken; [|exact Hsub]. apply lookup_insert_eq. }
        repeat split; try done; try lia.
        -- etrans; [|exact Hsub]. apply insert_subseteq. exact Hsm.
        -- rewrite Hhp, <- app_assoc in Hok'. exact Hok'.
        -- constructor; [reflexivity | exact Hfe].
        -- intros k. change (EvGetRecordWithKey k0 :: tr)
             with ([EvGetRecordWithKey k0] ++ tr).
           rewrite fetch_count_app, Hcnt. unfold fetch_count. cbn.
           destruct (decide (k0 = k)) as [->|Hne].
           ++ rewrite N.eqb_refl, Hsm, Hin, lookup_insert_eq. reflexivity.
           ++ rewrite lookup_insert_ne by exact Hne.
              destruct (N.eqb_spec k0 k) as [|_]; [contradiction|]. reflexivity.
        -- intros [|i] td' Hi; cbn in Hi.
           ++ injection Hi as <-. exists k0, ty. eexists. repeat split; done.
           ++ apply Hview in Hi. exact Hi.
      * cbn. intros k st Hk.
        destruct (decide (k0 = k)) as [->|Hne].
        -- rewrite lookup_insert_eq in Hk. injection Hk as <-.
           eexists. split; [apply list_lookup_middle; reflexivity|]. exact Hrec.
        -- rewrite lookup_insert_ne in Hk by exact Hne.
           eapply storageMap_ok_grow; [exact Hok | exact Hk].
Qed.


(** C10: when a storage record is materialized for the first time, the
    element count of the new storage is the byte size of the fetched record
    divided by the item size of the element type, rounded down: the bytes
    left over when the size is not a multiple of the item size are not
    counted, and no error is raised for them. *)
Theorem loadTensor_numel_floor reader td sm s ty k rec :
  typeMetaToScalarType (data_type td) = Some ty →
  stoull (ref_key (data td)) = Some k →
  sm !! k = None →
  getRecordWithKey reader k = Some rec →
  N.of_nat (length rec) = ref_size (data td) →
  (0 < itemsize ty)%N →
  ∃ t s' numel,
    loadTensor reader td sm s = (Ret (t, <[k := t_storage t]> sm), s') ∧
    t_storage t = length (heap s) ∧
    heap s' = heap s ++ [mkStorageImpl ty rec numel] ∧
    numel = (N.of_nat (length rec) / itemsize ty)%N ∧
    (numel * itemsize ty ≤ N.of_nat (length rec))%N ∧
    (N.of_nat (length rec) < numel * itemsize ty + itemsize ty)%N ∧
    (N.of_nat (length rec) - numel * itemsize ty
     = N.of_nat (length rec) mod itemsize ty)%N.
Proof.
  intros Hty Hk Hsm Hrec Hsz Hpos.
  rewrite loadTensor_run, Hty, Hk, Hsm, Hrec.
  destruct (N.eqb_spec (N.of_nat (length rec)) (ref_size (data td))) as [_|];
    [|contradiction].
  exists (mkTensor (length (heap s)) (offset td) (dims td) (strides td) ty
                   (requires_grad td)).
  eexists. exists (N.of_nat (length rec) / itemsize ty)%N.
  split; [reflexivity|]. cbn.
  pose proof (N.mod_upper_bound (N.of_nat (length rec)) (itemsize ty)) as Hm.
  pose proof (N.div_mod (N.of_nat (length rec)) (itemsize ty)) as Hd.
  assert (Hn : itemsize ty ≠ 0%N) by lia.
  specialize (Hm Hn). specialize (Hd Hn).
  generalize dependent (N.of_nat (length rec) / itemsize ty)%N.
  generalize dependent (N.of_nat (length rec) mod itemsize ty)%N.
  intros r Hr q Hq. repeat split; try reflexivity; nia.
Qed.

(** ** Failures of the tensor pass *)

(** The tensor pass calls the reader and nothing else, whatever its outcome. *)
Lemma loadTensorTable_loop_frame reader ts : ∀ sm s o s',
  loadTensorTable_loop reader ts sm s = (o, s') →
  world s' = world s ∧ moduleStack_ s' = moduleStack_ s ∧
  ∃ tr, trace s' = trace s ++ tr ∧ Forall (fun e => is_fetch e = true) tr.
Proof.
  induction ts as [|td ts IH]; intros sm s o s' Hrun.
  - cbn in Hrun. injection Hrun as <- <-. repeat split.
    exists []. rewrite app_nil_r. split; [reflexivity | constructor].
  - cbn [loadTensorTable_loop] in Hrun. unfold bind at 1 in Hrun.
    rewrite loadTensor_run in Hrun.
    destruct (typeMetaToScalarType (data_type td)) as [ty|].
    2: { injection Hrun as <- <-. repeat split. exists [].
         rewrite app_nil_r. split; [reflexivity | constructor]. }
    destruct (stoull (ref_key (data td))) as [k0|].
    2: { injection Hrun as <- <-. repeat split. exists [].
         rewrite app_nil_r. split; [reflexivity | constructor]. }
    destruct (sm !! k0) as [st|].
    { cbn in Hrun. apply IH in Hrun. exact Hrun. }
    destruct (getRecordWithKey reader k0) as [rec|].
    2: { injection Hrun as <- <-. repeat split. eexists.
         split; [reflexivity | repeat constructor]. }
    destruct (N.of_nat (length rec) =? ref_size (data td))%N.
    2: { injection Hrun as <- <-. repeat split. eexists.
         split; [reflexivity | repeat constructor]. }
    cbn in Hrun. apply IH in Hrun as (Hw & Hst & tr & Htr & Hfe). cbn in *.
    repeat split; try done.
    exists (EvGetRecordWithKey k0 :: tr). rewrite Htr, <- app_assoc.
    split; [reflexivity | constructor; [reflexivity | exact Hfe]].
Qed.

(** A first reference whose record has another size than declared makes the
    pass fail; the failure is the size mismatch unless an earlier step of
    the pass failed before. *)
Lemma loadTensorTable_loop_mismatch reader td post k rec pre : ∀ sm s,
  (∀ td', td' ∈ pre → stoull (ref_key (data td')) ≠ Some k) →
  sm !! k = None →
  stoull (ref_key (data td)) = Some k →
  getRecordWithKey reader k = Some rec →
  N.of_nat (length rec) ≠ ref_size (data td) →
  ∃ e s', loadTensorTable_loop reader (pre ++ td :: post) sm s = (Throw e, s') ∧
    ((loadTensorTable_loop reader pre sm s).1 = Ret tt →
     is_Some (typeMetaToScalarType (data_type td)) →
     e = StorageSizeMismatchError).
Proof.
  induction pre as [|td0 pre IH]; intros sm s Hpre Hsm Hk Hrec Hsz.
  - cbn [app loadTensorTable_loop]. unfold bind at 1. rewrite loadTensor_run, Hk, Hsm, Hrec.
    destruct (typeMetaToScalarType (data_type td)) as [ty|].
    + destruct (N.eqb_spec (N.of_nat (length rec)) (ref_size (data td))) as [|_];
        [contradiction|].
      eexists _, _. split; [reflexivity | done].
    + eexists _, _. split; [reflexivity|]. intros _ [? [=]].
  - cbn [app loadTensorTable_loop]. unfold bind at 1 3. rewrite loadTensor_run.
    assert (Hk0 : stoull (ref_key (data td0)) ≠ Some k)
      by (apply Hpre; left).
    assert (Hpre' : ∀ td', td' ∈ pre → stoull (ref_key (data td')) ≠ Some k)
      by (intros td' Hin; apply Hpre; right; exact Hin).
    destruct (typeMetaToScalarType (data_type td0)) as [ty|];
      [|eexists _, _; split; [reflexivity | intros [=]]].
    destruct (stoull (ref_key (data td0))) as [k0|];
      [|eexists _, _; split; [reflexivity | intros [=]]].
    destruct (sm !! k0) as [st|] eqn:Hsm0.
    { cbn. apply IH; done. }
    destruct (getRecordWithKey reader k0) as [rec0|];
      [|eexists _, _; split; [reflexivity | intros [=]]].
    destruct (N.of_nat (length rec0) =? ref_size (data td0))%N;
      [|eexists _, _; split; [reflexivity | intros [=]]].
    cbn. apply IH; try done.
    rewrite lookup_insert_ne; [exact Hsm | congruence].
Qed.

(** ** deserialize, step by step *)

Lemma deserialize_run reader lookup s :
  deserialize reader lookup s =
  match getLastRecord reader with
  | None => (Throw ArchiveReadError, logged s EvGetLastRecord)
  | Some json =>
    match JsonToBinaryString json with
    | None => (Throw MetadataTranscodeError, logged s EvGetLastRecord)
    | Some bin =>
      match ParseFromString bin with
      | None => (Throw SchemaValidationError, logged s EvGetLastRecord)
      | Some model_def =>
          bind (loadTensorTable reader model_def)
               (fun _ => convertModule lookup reader (main_module model_def))
               (logged s EvGetLastRecord)
      end
    end
  end.
Proof.
  unfold deserialize, reader_getLastRecord, bind, lift_option, log. cbn.
  destruct (getLastRecord reader) as [json|]; [|reflexivity]. cbn.
  destruct (JsonToBinaryString json) as [bin|]; [|reflexivity]. cbn.
  destruct (ParseFromString bin) as [model_def|]; reflexivity.
Qed.

(** C4: when the transcoder rejects the metadata record (the JSON text is
    not converted, or the converted message does not parse as a model
    descriptor), deserialize fails with the transcode error, respectively the
    validation error, right after the last record was fetched: no tensor is
    materialized and no module is looked up. *)
Theorem deserialize_rejects_bad_metadata reader lookup s json :
  getLastRecord reader = Some json →
  (JsonToBinaryString json = None →
   deserialize reader lookup s
   = (Throw MetadataTranscodeError, logged s EvGetLastRecord)) ∧
  (∀ bin, JsonToBinaryString json = Some bin → ParseFromString bin = None →
   deserialize reader lookup s
   = (Throw SchemaValidationError, logged s EvGetLastRecord)).
Proof.
  intros Hlast. split.
  - intros Hjson. rewrite deserialize_run, Hlast, Hjson. reflexivity.
  - intros bin Hjson Hparse. rewrite deserialize_run, Hlast, Hjson, Hparse.
    reflexivity.
Qed.

(** C2, for first references: if a tensor descriptor is the first of the tensor list to
    reference its record key, and the record fetched for that key has another
    byte length than the descriptor declares, then deserialize fails before
    any module is looked up (only the reader has been called and the caller's
    objects are untouched); the failure is the size mismatch whenever the
    descriptors before it were materialized and its data type is supported. *)
Theorem deserialize_storage_size_mismatch reader lookup s json bin model_def
    pre td post k rec :
  getLastRecord reader = Some json →
  JsonToBinaryString json = Some bin →
  ParseFromString bin = Some model_def →
  tensors model_def = pre ++ td :: post →
  stoull (ref_key (data td)) = Some k →
  (∀ td', td' ∈ pre → stoull (ref_key (data td')) ≠ Some k) →
  getRecordWithKey reader k = Some rec →
  N.of_nat (length rec) ≠ ref_size (data td) →
  ∃ e s' tr,
    deserialize reader lookup s = (Throw e, s') ∧
    world s' = world s ∧
    trace s' = trace s ++ tr ∧
    Forall (fun ev => is_reader_event ev = true) tr ∧
    ((loadTensorTable_loop reader pre ∅ (logged s EvGetLastRecord)).1 = Ret tt →
     is_Some (typeMetaToScalarType (data_type td)) →
     e = StorageSizeMismatchError).
Proof.
  intros Hlast Hjson Hparse Hts Hk Hpre Hrec Hsz.
  rewrite deserialize_run, Hlast, Hjson, Hparse.
  destruct (loadTensorTable_loop_mismatch reader td post k rec pre ∅
              (logged s EvGetLastRecord) Hpre (lookup_empty k) Hk Hrec Hsz)
    as (e & s' & Hrun & He).
  unfold bind, loadTensorTable. rewrite Hts, Hrun.
  apply loadTensorTable_loop_frame in Hrun as (Hw & _ & tr & Htr & Hfe).
  exists e, s', (EvGetLastRecord :: tr). cbn in Hw, Htr.
  repeat split; try done.
  - rewrite Htr, <- app_assoc. reflexivity.
  - constructor; [reflexivity|].
    eapply Forall_impl; [exact Hfe|]. intros [] Hev; done.
Qed.

(** ** The steps of convertModule *)

Lemma convertModule_eq lookup reader module_def :
  convertModule lookup reader module_def =
  bind (call_moduleLookup lookup) (fun module =>
  bind (call_set_optimized module (optimize module_def)) (fun _ =>
  bind (for_each (fun sub_def =>
          bind (moduleStack_emplace_back (name sub_def)) (fun _ =>
          bind (convertModule lookup reader sub_def) (fun _ =>
          moduleStack_pop_back)))
        (submodules module_def)) (fun _ =>
  bind (for_each (convertParameter module) (parameters module_def)) (fun _ =>
  convertArena reader module (torchscript_arena module_def))))).
Proof. destruct module_def; reflexivity. Qed.

Lemma call_moduleLookup_run (lookup : ModuleLookup) s :
  call_moduleLookup lookup s =
  match lookup (moduleStack_ s) (world s) with
  | Some (module, w) =>
      (Ret module, set_world w (logged s (EvModuleLookup (moduleStack_ s))))
  | None =>
      (Throw ModuleLookupError, logged s (EvModuleLookup (moduleStack_ s)))
  end.
Proof.
  unfold call_moduleLookup, bind, gets, log. cbn.
  destruct (lookup (moduleStack_ s) (world s)) as [[module w]|]; reflexivity.
Qed.

Lemma call_set_optimized_run module o s :
  call_set_optimized module o s =
  (Ret tt, set_world (set_optimized module o (world s))
                     (logged s (EvSetOptimized module o))).
Proof. reflexivity. Qed.

Lemma convertParameter_run module p s :
  convertParameter module p s =
  match vector_at (tensor_table_ s) (tensor_id p) with
  | None => (Throw InvalidTensorIdError, s)
  | Some t =>
      (Ret tt,
       set_world (register_parameter module (param_name p) t (is_buffer p) (world s))
         (logged s (EvRegisterParameter module (param_name p) t (is_buffer p))))
  end.
Proof.
  unfold convertParameter, tensor_table_at, bind, gets, lift_option. cbn.
  destruct (vector_at (tensor_table_ s) (tensor_id p)); reflexivity.
Qed.

Lemma convertArena_run reader module arena s :
  convertArena reader module arena s =
  match stoull (ref_key arena) with
  | None => (Throw InvalidRecordKeyError, s)
  | Some key =>
    let s1 := logged s (EvGetRecordWithKey key) in
    match getRecordWithKey reader key with
    | None => (Throw ArchiveReadError, s1)
    | Some data_ =>
        if (N.of_nat (length data_) =? ref_size arena)%N then
          let s2 := logged s1 (EvImportMethods module data_ (tensor_table_ s)) in
          match import_methods module data_ (tensor_table_ s) (world s) with
          | Some w => (Ret tt, set_world w s2)
          | None => (Throw CodeLoaderError, s2)
          end
        else (Throw CodeArenaSizeMismatchError, s1)
    end
  end.
Proof.
  unfold convertArena, bind, lift_option.
  destruct (stoull (ref_key arena)) as [key|]; [|reflexivity]. cbn.
  destruct (getRecordWithKey reader key) as [data_|]; [|reflexivity]. cbn.
  unfold assert. destruct (N.of_nat (length data_) =? ref_size arena)%N; [|reflexivity].
  cbn. destruct (import_methods _ _ _ _); reflexivity.
Qed.



(** ** Successful runs of convertModule *)

Lemma lookup_paths_app (tr1 tr2 : list Event) :
  lookup_paths (tr1 ++ tr2) = lookup_paths tr1 ++ lookup_paths tr2.
Proof. apply omap_app. Qed.

Section Abstraction.

(** An observation [f] of the caller's objects that only the lookup callback
    changes, by [g]. *)
Variables (X : Type) (f : World → X) (g : list string → X → X).
Variable lookup : ModuleLookup (World := World) (ModuleHandle := ModuleHandle).

Hypothesis lookup_abs : ∀ q w h w', lookup q w = Some (h, w') → f w' = g q (f w).
Hypothesis set_optimized_abs : ∀ h o w, f (set_optimized h o w) = f w.
Hypothesis register_parameter_abs :
  ∀ h n t b w, f (register_parameter h n t b w) = f w.
Hypothesis import_methods_abs :
  ∀ h d t w w', import_methods h d t w = Some w' → f w' = f w.

Lemma for_each_convertParameter_Ret module ps : ∀ s s',
  for_each (convertParameter module) ps s = (Ret tt, s') →
  ∃ tr, trace s' = trace s ++ tr ∧
    Forall2 (fun p e => ∃ t, vector_at (tensor_table_ s) (tensor_id p) = Some t ∧
               e = EvRegisterParameter module (param_name p) t (is_buffer p))
            ps tr ∧
    moduleStack_ s' = moduleStack_ s ∧ tensor_table_ s' = tensor_table_ s ∧
    heap s' = heap s ∧ f (world s') = f (world s) ∧ lookup_paths tr = [].
Proof.
  induction ps as [|p ps IH]; intros s s' Hrun; cbn [for_each] in Hrun.
  - injection Hrun as <-. exists []. rewrite app_nil_r.
    repeat split; constructor.
  - unfold bind at 1 in Hrun. rewrite convertParameter_run in Hrun.
    destruct (vector_at (tensor_table_ s) (tensor_id p)) as [t|] eqn:Ht;
      [|discriminate].
    apply IH in Hrun as (tr & Htr & Hreg & Hst & Htb & Hhp & Hf & Hlk).
    cbn in Htr, Hreg, Hst, Htb, Hhp, Hf.
    exists (EvRegisterParameter module (param_name p) t (is_buffer p) :: tr).
    rewrite Htr, <- app_assoc. repeat split; try done.
    + constructor; [eauto | exact Hreg].
    + rewrite Hf. apply register_parameter_abs.
Qed.

Lemma convertModule_Ret reader : ∀ module_def s s',
  convertModule lookup reader module_def s = (Ret tt, s') →
  ∃ tr, trace s' = trace s ++ tr ∧
    visit reader (tensor_table_ s) (moduleStack_ s) module_def tr ∧
    moduleStack_ s' = moduleStack_ s ∧ tensor_table_ s' = tensor_table_ s ∧
    heap s' = heap s ∧
    f (world s') = foldl (fun acc q => g q acc) (f (world s)) (lookup_paths tr).
Proof.
  induction module_def as [n o subs ps arena IHsubs] using ModuleDef_tree_ind.
  intros s s' Hrun. rewrite convertModule_eq in Hrun. cbn [optimize submodules
    parameters torchscript_arena] in Hrun.
  (* the lookup and the optimize flag *)
  unfold bind at 1 in Hrun. rewrite call_moduleLookup_run in Hrun.
  destruct (lookup (moduleStack_ s) (world s)) as [[module w]|] eqn:Hlk;
    [|discriminate].
  unfold bind at 1 in Hrun. rewrite call_set_optimized_run in Hrun.
  apply bind_Ret_inv in Hrun as ([] & s1 & Hsubs & Hrun).
  apply bind_Ret_inv in Hrun as ([] & s2 & Hps & Hrun).
  (* the submodules *)
  assert (Hchildren : ∀ s0 s0',
    for_each (fun sub_def =>
        bind (moduleStack_emplace_back (name sub_def)) (fun _ =>
        bind (convertModule lookup reader sub_def) (fun _ =>
        moduleStack_pop_back))) subs s0 = (Ret tt, s0') →
    ∃ tr, trace s0' = trace s0 ++ tr ∧
      visit_children reader (tensor_table_ s0) (moduleStack_ s0) subs tr ∧
      moduleStack_ s0' = moduleStack_ s0 ∧ tensor_table_ s0' = tensor_table_ s0 ∧
      heap s0' = heap s0 ∧
      f (world s0') = foldl (fun acc q => g q acc) (f (world s0)) (lookup_paths tr)).
  { clear -IHsubs. induction IHsubs as [|sub subs IHsub _ IHrest];
      intros s0 s0' Hloop; cbn [for_each] in Hloop.
    - injection Hloop as <-. exists []. rewrite app_nil_r.
      repeat split. constructor.
    - apply bind_Ret_inv in Hloop as ([] & s1 & Hbody & Hloop).
      unfold bind at 1, moduleStack_emplace_back in Hbody.
      apply bind_Ret_inv in Hbody as ([] & s2 & Hsub & Hpop).
      unfold moduleStack_pop_back in Hpop. injection Hpop as <-.
      apply IHsub in Hsub as (tr1 & Htr1 & Hv1 & Hst1 & Htb1 & Hhp1 & Hf1).
      apply IHrest in Hloop as (tr2 & Htr2 & Hv2 & Hst2 & Htb2 & Hhp2 & Hf2).
      cbn in Htr1, Hv1, Hst1, Htb1, Hhp1, Hf1, Htr2, Hv2, Hst2, Htb2, Hhp2, Hf2.
      rewrite Hst1, removelast_last in Hst2, Hv2. rewrite Htb1 in Htb2, Hv2.
      exists (tr1 ++ tr2). rewrite Htr2, Htr1, <- app_assoc.
      repeat split; try done; try congruence.
      + constructor; assumption.
      + rewrite lookup_paths_app, foldl_app, <- Hf1. exact Hf2. }
  apply Hchildren in Hsubs as (tr1 & Htr1 & Hv1 & Hst1 & Htb1 & Hhp1 & Hf1).
  cbn in Htr1, Hv1, Hst1, Htb1, Hhp1, Hf1.
  (* the parameters *)
  apply for_each_convertParameter_Ret in Hps
    as (tr2 & Htr2 & Hreg & Hst2 & Htb2 & Hhp2 & Hf2 & Hlk2).
  rewrite Htb1 in Hreg.
  (* the code arena *)
  rewrite convertArena_run in Hrun.
  destruct (stoull (ref_key arena)) as [key|] eqn:Hkey; [|discriminate].
  cbn zeta in Hrun.
  destruct (getRecordWithKey reader key) as [data_|] eqn:Hrec; [|discriminate].
  destruct (N.eqb_spec (N.of_nat (length data_)) (ref_size arena)) as [Hsz|];
    [|discriminate].
  destruct (import_methods module data_ (tensor_table_ s2) (world s2)) as [w'|]
    eqn:Himp; [|discriminate].
  injection Hrun as <-. cbn.
  exists ([EvModuleLookup (moduleStack_ s); EvSetOptimized module o] ++ tr1 ++ tr2
          ++ [EvGetRecordWithKey key; EvImportMethods module data_ (tensor_table_ s)]).
  rewrite Htb2, Htb1, Htr2, Htr1, <- !app_assoc. cbn [app].
  split; [reflexivity|]. split.
  { apply (visit_module reader (tensor_table_ s) (moduleStack_ s)
             (mkModuleDef n o subs ps arena) module tr1 tr2 key data_); done. }
  split; [congruence|]. split; [reflexivity|]. split; [congruence|].
  change (lookup_paths (?a :: ?b :: ?r)) with ([moduleStack_ s] ++ lookup_paths r).
  rewrite !lookup_paths_app, Hlk2.
  change (lookup_paths [_; _]) with (@nil (list string)).
  rewrite !app_nil_r, foldl_app. cbn [foldl].
  rewrite (import_methods_abs _ _ _ _ _ Himp), Hf2, Hf1.
  rewrite set_optimized_abs, (lookup_abs _ _ _ _ Hlk). reflexivity.
Qed.

End Abstraction.

Lemma convertModule_visit lookup reader module_def s s' :
  convertModule lookup reader module_def s = (Ret tt, s') →
  ∃ tr, trace s' = trace s ++ tr ∧
    visit reader (tensor_table_ s) (moduleStack_ s) module_def tr ∧
    moduleStack_ s' = moduleStack_ s ∧ tensor_table_ s' = tensor_table_ s ∧
    heap s' = heap s.
Proof.
  intros Hrun.
  destruct (convertModule_Ret unit (fun _ => tt) (fun _ x => x) lookup
              ltac:(done) ltac:(done) ltac:(done) ltac:(done)
              reader module_def s s' Hrun)
    as (tr & Htr & Hv & Hst & Htb & Hhp & _).
  exists tr. done.
Qed.

(** The lookups of a visit are the qualified names of the descriptor tree in
    pre-order, below the name at which the visit starts. *)
Lemma visit_lookup_paths reader (table : list Tensor) : ∀ module_def path tr,
  visit (ModuleHandle := ModuleHandle) reader table path module_def tr →
  lookup_paths tr = map (app path) (preorder_paths module_def).
Proof.
  induction module_def as [n o subs ps arena IHsubs] using ModuleDef_tree_ind.
  intros path tr Hv. inversion Hv as [? ? module tr_subs tr_params key data_
    Hchildren Hparams Hkey Hrec Hsz]; subst. cbn [submodules parameters] in *.
  assert (Hps : lookup_paths tr_params = []).
  { clear -Hparams. induction Hparams as [|p e ps tr (t & _ & ->) _ IH];
      [reflexivity | exact IH]. }
  assert (Hsubs : lookup_paths tr_subs
                  = concat (map (fun sub => map (app (path ++ [name sub]))
                                                (preorder_paths sub)) subs)).
  { clear -IHsubs Hchildren.
    induction Hchildren as [|path sub rest tr1 tr2 Hsub Hrest IH].
    - reflexivity.
    - inversion IHsubs as [|? ? IHsub IHrest]; subst.
      rewrite lookup_paths_app, (IHsub _ _ Hsub), (IH IHrest). reflexivity. }
  change (lookup_paths ([?a; ?b] ++ ?r)) with ([path] ++ lookup_paths r).
  rewrite !lookup_paths_app, Hps, Hsubs.
  change (lookup_paths [_; _]) with (@nil (list string)).
  rewrite !app_nil_r. cbn [preorder_paths map app submodules].
  rewrite app_nil_r. f_equal.
  clear. induction subs as [|sub subs IH]; [reflexivity|].
  cbn [map concat]. rewrite map_app, <- IH. f_equal.
  rewrite map_map. apply map_ext. intros q. rewrite <- app_assoc. reflexivity.
Qed.

(** ** No step of the deserializer raises the open error *)

Lemma never_throws_bind {A B} e0 (m : M A) (k : A → M B) :
  never_throws e0 m → (∀ a, never_throws e0 (k a)) → never_throws e0 (bind m k).
Proof.
  intros Hm Hk s e s'. unfold bind.
  destruct (m s) as [[a|e1] s1] eqn:Hms.
  - apply Hk.
  - intros [= <- <-]. eapply Hm. exact Hms.
Qed.

Lemma never_throws_total {A} e0 (m : M A) :
  (∀ s, ∃ a s', m s = (Ret a, s')) → never_throws e0 m.
Proof. intros Hm s e s' Hrun. destruct (Hm s) as (a & s1 & Heq). congruence. Qed.

Lemma never_throws_lift_option {A} e0 e1 (o : option A) :
  e1 ≠ e0 → never_throws e0 (lift_option e1 o : M A).
Proof.
  intros Hne s e s'. destruct o; cbn; [discriminate|]. intros [= <- <-]. exact Hne.
Qed.

Lemma never_throws_for_each {A} e0 (body : A → M unit) l :
  Forall (fun x => never_throws e0 (body x)) l → never_throws e0 (for_each body l).
Proof.
  induction 1 as [|x l Hx _ IH]; cbn [for_each].
  - apply never_throws_total. intros s. eexists _, _. reflexivity.
  - apply never_throws_bind; [exact Hx | intros _; exact IH].
Qed.

Lemma never_throws_run {A} e0 (m m' : M A) :
  (∀ s, m s = m' s) → never_throws e0 m' → never_throws e0 m.
Proof. intros Heq Hm s e s'. rewrite Heq. apply Hm. Qed.

Lemma loadTensor_no_open_error reader td sm :
  never_throws ArchiveOpenError (loadTensor reader td sm).
Proof.
  intros s e s'. rewrite loadTensor_run.
  repeat case_match; intros [= <- <-]; discriminate.
Qed.

Lemma loadTensorTable_loop_no_open_error reader ts : ∀ sm,
  never_throws ArchiveOpenError (loadTensorTable_loop reader ts sm).
Proof.
  induction ts as [|td ts IH]; intros sm; cbn [loadTensorTable_loop].
  - apply never_throws_total. intros s. eexists _, _. reflexivity.
  - apply never_throws_bind; [apply loadTensor_no_open_error|]. intros r.
    apply never_throws_bind; [|intros _; apply IH].
    apply never_throws_total. intros s. eexists _, _. reflexivity.
Qed.

Lemma convertModule_no_open_error lookup reader : ∀ module_def,
  never_throws ArchiveOpenError (convertModule lookup reader module_def).
Proof.
  induction module_def as [n o subs ps arena IHsubs] using ModuleDef_tree_ind.
  rewrite convertModule_eq. cbn [optimize submodules parameters torchscript_arena].
  apply never_throws_bind.
  { intros s e s'. rewrite call_moduleLookup_run.
    repeat case_match; intros [= <- <-]; discriminate. }
  intros module. apply never_throws_bind.
  { apply never_throws_total. intros s. eexists _, _. reflexivity. }
  intros _. apply never_throws_bind.
  { apply never_throws_for_each. eapply Forall_impl; [exact IHsubs|].
    intros sub IHsub. cbn beta.
    apply never_throws_bind.
    { apply never_throws_total. intros s. eexists _, _. reflexivity. }
    intros _. apply never_throws_bind; [exact IHsub|]. intros _.
    apply never_throws_total. intros s. eexists _, _. reflexivity. }
  intros _. apply never_throws_bind.
  { apply never_throws_for_each. apply Forall_forall. intros p _ s e s'.
    rewrite convertParameter_run. repeat case_match; intros [= <- <-]; discriminate. }
  intros _ s e s'. rewrite convertArena_run. cbn zeta.
  repeat case_match; intros [= <- <-]; discriminate.
Qed.

Lemma deserialize_no_open_error reader lookup :
  never_throws ArchiveOpenError (deserialize reader lookup).
Proof.
  intros s e s'. rewrite deserialize_run.
  destruct (getLastRecord reader) as [json|]; [|intros [= <- <-]; discriminate].
  destruct (JsonToBinaryString json) as [bin|]; [|intros [= <- <-]; discriminate].
  destruct (ParseFromString bin) as [model_def|];
    [|intros [= <- <-]; discriminate].
  apply never_throws_bind.
  - apply loadTensorTable_loop_no_open_error.
  - intros _. apply convertModule_no_open_error.
Qed.

Lemma run_deserializer_no_open_error deserializer lookup w :
  (run_deserializer deserializer lookup w).1 ≠ Throw ArchiveOpenError.
Proof.
  unfold run_deserializer. destruct deserializer as [reader|]; [|discriminate].
  destruct (deserialize reader lookup (new_deserializer w)) as [[[]|e] s'] eqn:Hrun;
    [discriminate|].
  cbn. intros [= ->]. eapply deserialize_no_open_error; [exact Hrun | reflexivity].
Qed.

(** C7: a successful deserialize of a fresh deserializer has fetched the last
    record, transcoded it into a model descriptor, then materialized the
    tensor descriptors in list order (calling only the reader meanwhile), so
    that the tensor at each position of the tensor table is the view described
    by the descriptor at that position, and only then visited the module tree,
    the root module being looked up under the empty qualified name, with that
    complete tensor table. *)
Theorem deserialize_order reader lookup w s' :
  deserialize reader lookup (new_deserializer w) = (Ret tt, s') →
  ∃ json bin model_def tr_tensors tr_modules,
    getLastRecord reader = Some json ∧
    JsonToBinaryString json = Some bin ∧
    ParseFromString bin = Some model_def ∧
    trace s' = [EvGetLastRecord] ++ tr_tensors ++ tr_modules ∧
    Forall (fun e => is_fetch e = true) tr_tensors ∧
    length (tensor_table_ s') = length (tensors model_def) ∧
    (∀ i td, tensors model_def !! i = Some td →
       ∃ ty t, typeMetaToScalarType (data_type td) = Some ty ∧
               tensor_table_ s' !! i = Some t ∧ view_of td ty t) ∧
    visit reader (tensor_table_ s') [] (main_module model_def) tr_modules ∧
    lookup_paths tr_modules = preorder_paths (main_module model_def).
Proof.
  intros Hrun. rewrite deserialize_run in Hrun.
  destruct (getLastRecord reader) as [json|] eqn:Hlast; [|discriminate].
  destruct (JsonToBinaryString json) as [bin|] eqn:Hjson; [|discriminate].
  destruct (ParseFromString bin) as [model_def|] eqn:Hparse; [|discriminate].
  apply bind_Ret_inv in Hrun as ([] & s1 & Htensors & Hmodules).
  unfold loadTensorTable in Htensors.
  apply loadTensorTable_loop_Ret in Htensors
    as (sm' & tbl & hp & tr1 & _ & Hst1 & Htb1 & _ & Htr1 & Hlen & _ & _ & Hfe
        & _ & Hview).
  2: { intros k st Hk. rewrite lookup_empty in Hk. discriminate. }
  apply convertModule_visit in Hmodules as (tr2 & Htr2 & Hv & _ & Htb2 & _).
  cbn in Hst1, Htb1, Htr1. rewrite Hst1, <- Htb2 in Hv.
  exists json, bin, model_def, tr1, tr2.
  repeat match goal with |- _ ∧ _ => split end; try done.
  - rewrite Htr2, Htr1. reflexivity.
  - rewrite Htb2, Htb1. exact Hlen.
  - intros i td Hi. destruct (Hview i td Hi) as (k & ty & t & _ & Hty & Ht & _ & Hvw).
    exists ty, t. rewrite Htb2, Htb1. done.
  - rewrite (visit_lookup_paths _ _ _ _ _ Hv). cbn [app]. apply map_id.
Qed.

End Facts.

(** ** The module tree built by load *)

Section LoadFacts.

Context {ScalarType : Type}.
Context `{RT : !Runtime (ScalarType := ScalarType)}.
Context `{CL : !CodeLoader (ScalarType := ScalarType)}.

Notation ScriptModule := (ScriptModule (ScalarType := ScalarType)).

Implicit Types (m : ScriptModule) (sh : Shape).

Lemma module_shape_eq m :
  module_shape m = ShapeNode (map (fun nc => (nc.1, module_shape nc.2)) (modules m)).
Proof. destruct m; reflexivity. Qed.

Lemma has_key_map {A B} (h : A → B) n (l : list (string * A)) :
  has_key n (map (fun nc => (nc.1, h nc.2)) l) = has_key n l.
Proof.
  unfold has_key. induction l as [|[n' c] l IH]; [reflexivity|].
  cbn. rewrite IH. reflexivity.
Qed.

Lemma has_key_app {A} n (l1 l2 : list (string * A)) :
  has_key n (l1 ++ l2) = has_key n l1 || has_key n l2.
Proof. unfold has_key. apply existsb_app. Qed.

Lemma alter_entry_map {A B} (h : A → B) (f : A → A) (f' : B → B) n
    (l : list (string * A)) :
  (∀ c, h (f c) = f' (h c)) →
  map (fun nc => (nc.1, h nc.2)) (alter_entry n f l)
  = alter_entry n f' (map (fun nc => (nc.1, h nc.2)) l).
Proof.
  intros Hf. induction l as [|[n' c] l IH]; [reflexivity|].
  cbn. destruct (bool_decide (n' = n)); cbn; [rewrite Hf | rewrite IH]; reflexivity.
Qed.

(** Mutating the module found under a name, in a way that keeps its shape,
    keeps the shape of the whole. *)
Lemma alter_entry_same_shape (f : ScriptModule → ScriptModule) n
    (l : list (string * ScriptModule)) :
  (∀ c, find (fun nc => bool_decide (nc.1 = n)) l = Some (n, c) →
        module_shape (f c) = module_shape c) →
  map (fun nc => (nc.1, module_shape nc.2)) (alter_entry n f l)
  = map (fun nc => (nc.1, module_shape nc.2)) l.
Proof.
  induction l as [|[n' c] l IH]; intros Hf; [reflexivity|].
  cbn in *. destruct (bool_decide_reflect (n' = n)) as [->|Hne]; cbn.
  - rewrite Hf; reflexivity.
  - rewrite IH; [reflexivity | exact Hf].
Qed.

Lemma alter_entry_last {A} (f : A → A) n c (l : list (string * A)) :
  has_key n l = false →
  alter_entry n f (l ++ [(n, c)]) = l ++ [(n, f c)].
Proof.
  unfold has_key. induction l as [|[n' c'] l IH]; cbn.
  - intros _. rewrite bool_decide_eq_true_2; reflexivity.
  - destruct (bool_decide (n' = n)); cbn; [discriminate|].
    intros Hl. rewrite IH; [reflexivity | exact Hl].
Qed.

Lemma module_lookup_walk_shape qualified_name : ∀ m,
  module_shape (module_lookup_walk qualified_name m)
  = shape_ensure qualified_name (module_shape m).
Proof.
  induction qualified_name as [|n rest IH]; intros m; [reflexivity|].
  cbn [module_lookup_walk shape_ensure].
  rewrite (module_shape_eq m). unfold find_module.
  rewrite has_key_map.
  rewrite module_shape_eq. unfold update_module. cbn [modules].
  f_equal. rewrite (alter_entry_map module_shape _ (shape_ensure rest)) by exact IH.
  f_equal. destruct (has_key n (modules m)); [reflexivity|].
  cbn [register_module modules]. rewrite map_app. reflexivity.
Qed.

Lemma at_path_shape (f : ScriptModule → ScriptModule) h : ∀ m,
  (∀ c, module_at h m = Some c → module_shape (f c) = module_shape c) →
  module_shape (at_path h f m) = module_shape m.
Proof.
  induction h as [|n h IH]; intros m Hf; cbn [at_path].
  - apply Hf. reflexivity.
  - rewrite (module_shape_eq m), module_shape_eq. unfold update_module.
    cbn [modules]. f_equal. apply alter_entry_same_shape.
    intros c Hfind. apply IH. intros c' Hc'. apply Hf.
    cbn [module_at]. rewrite Hfind. exact Hc'.
Qed.

(** Inserting the qualified names of a descriptor tree in pre-order into an
    empty tree rebuilds the shape of the descriptor tree, provided sibling
    names are distinct. *)
Lemma shape_ensure_child n (cs : list (string * Shape)) :
  has_key n cs = false →
  ∀ ps c,
    foldl (fun acc q => shape_ensure q acc) (ShapeNode (cs ++ [(n, c)]))
          (map (cons n) ps)
    = ShapeNode (cs ++ [(n, foldl (fun acc q => shape_ensure q acc) c ps)]).
Proof.
  intros Hn. induction ps as [|p ps IH]; intros c; [reflexivity|].
  cbn [map foldl shape_ensure].
  rewrite has_key_app, Hn. cbn [orb has_key existsb fst].
  rewrite bool_decide_eq_true_2 by reflexivity. cbn [orb].
  rewrite alter_entry_last by exact Hn. apply IH.
Qed.

Lemma preorder_paths_head d : ∃ ps, preorder_paths d = [] :: ps.
Proof. destruct d. eexists. reflexivity. Qed.

Lemma shape_ensure_children subs :
  Forall (fun sub => foldl (fun acc q => shape_ensure q acc) (ShapeNode [])
                           (preorder_paths sub) = def_shape sub) subs →
  NoDup (map name subs) →
  ∀ cs, Forall (fun sub => has_key (name sub) cs = false) subs →
  foldl (fun acc q => shape_ensure q acc) (ShapeNode cs)
        (concat (map (fun sub => map (cons (name sub)) (preorder_paths sub)) subs))
  = ShapeNode (cs ++ map (fun sub => (name sub, def_shape sub)) subs).
Proof.
  induction 1 as [|sub subs Hsub _ IH]; intros Hnd cs Hcs.
  - cbn. rewrite app_nil_r. reflexivity.
  - cbn [map concat]. rewrite foldl_app.
    apply NoDup_cons in Hnd as [Hnotin Hnd].
    apply Forall_cons in Hcs as [Hn Hcs].
    destruct (preorder_paths_head sub) as [ps Hps].
    assert (Hfirst :
      foldl (fun acc q => shape_ensure q acc) (ShapeNode cs)
            (map (cons (name sub)) (preorder_paths sub))
      = ShapeNode (cs ++ [(name sub, def_shape sub)])).
    { rewrite <- Hsub, Hps. cbn [map foldl shape_ensure]. rewrite Hn.
      rewrite alter_entry_last by exact Hn.
      apply shape_ensure_child. exact Hn. }
    rewrite Hfirst, IH.
    + rewrite <- app_assoc. reflexivity.
    + exact Hnd.
    + apply Forall_forall. intros sub' Hin. rewrite has_key_app.
      rewrite Forall_forall in Hcs. rewrite (Hcs sub' Hin). cbn.
      rewrite orb_false_r. apply bool_decide_eq_false_2. intros Heq.
      apply Hnotin. rewrite Heq. apply list_elem_of_fmap_2. exact Hin.
Qed.

Lemma shape_ensure_preorder : ∀ d,
  distinct_sibling_names d = true →
  foldl (fun acc q => shape_ensure q acc) (ShapeNode []) (preorder_paths d)
  = def_shape d.
Proof.
  induction d as [n o subs ps arena IHsubs] using ModuleDef_tree_ind.
  cbn [distinct_sibling_names preorder_paths def_shape submodules foldl
       shape_ensure].
  intros [Hnd Hall]%andb_prop. apply bool_decide_eq_true_1 in Hnd.
  rewrite shape_ensure_children; [reflexivity | | exact Hnd | ].
  - rewrite forallb_forall in Hall. rewrite Forall_forall in IHsubs.
    apply Forall_forall. intros sub Hin. apply IHsubs; [exact Hin|].
    apply Hall. apply list_elem_of_In. exact Hin.
  - apply Forall_forall. intros sub _. reflexivity.
Qed.

Lemma convertModule_load_shape reader module_def
    (s s' : State (World := ScriptModule) (ModuleHandle := list string)) :
  (∀ m d t m', import_methods_on m d t = Some m' → modules m' = modules m) →
  distinct_sibling_names module_def = true →
  world s = new_ScriptModule →
  moduleStack_ s = [] →
  convertModule (API := load_ModuleApi) load_module_lookup reader module_def s
  = (Ret tt, s') →
  module_shape (world s') = def_shape module_def.
Proof.
  intros Hloader Hdistinct Hroot Hstack Hrun.
  assert (Hlk : ∀ q (w : ScriptModule) h w',
            load_module_lookup q w = Some (h, w') →
            module_shape w' = shape_ensure q (module_shape w)).
  { intros q w h w' [= <- <-]. apply module_lookup_walk_shape. }
  assert (Hopt : ∀ h o (w : ScriptModule),
            module_shape (set_optimized (ModuleApi := load_ModuleApi) h o w)
            = module_shape w).
  { intros h o w. apply at_path_shape. intros c _. destruct c; reflexivity. }
  assert (Hreg : ∀ h n t b (w : ScriptModule),
            module_shape (register_parameter (ModuleApi := load_ModuleApi) h n t b w)
            = module_shape w).
  { intros h n t b w. apply at_path_shape. intros c _. destruct c; reflexivity. }
  assert (Himp : ∀ h d t (w w' : ScriptModule),
            import_methods (ModuleApi := load_ModuleApi) h d t w = Some w' →
            module_shape w' = module_shape w).
  { intros h d t w w'. cbn.
    destruct (module_at h w) as [m|] eqn:Hat; [|discriminate].
    destruct (import_methods_on m d t) as [m'|] eqn:Himp; [|discriminate].
    intros [= <-]. apply at_path_shape. intros c Hc.
    assert (c = m) as -> by congruence.
    rewrite (module_shape_eq m'), (module_shape_eq m), (Hloader _ _ _ _ Himp).
    reflexivity. }
  destruct (convertModule_Ret (API := load_ModuleApi) Shape module_shape
              shape_ensure load_module_lookup Hlk Hopt Hreg Himp
              reader module_def s s' Hrun)
    as (tr & _ & Hv & _ & _ & _ & Hshape).
  rewrite Hshape, (visit_lookup_paths _ _ _ _ _ Hv), Hstack, Hroot.
  cbn [app]. rewrite map_id. apply shape_ensure_preorder. exact Hdistinct.
Qed.

(** C3, with the shape under distinct sibling names: a successful build of a descriptor tree looks the modules
    up under the qualified names of the tree in pre-order (depth first, a
    module before its submodules, siblings from left to right, each below the
    qualified name the build started with); its calls are nested as a visit:
    for each module the lookup, the optimize flag, the complete visits of the
    submodules, one registration per parameter descriptor in order, and only
    then the fetch of the code arena and the call of the code loader; and the
    module stack is back at its initial value. For the tree that load grows
    from a fresh root, with a code loader that leaves submodules alone: if no
    two submodules of one module carry the same name, the resulting module
    tree has the shape of the descriptor tree (same names, same order). *)
Theorem convertModule_traversal :
  (∀ (World ModuleHandle : Type) (API : ModuleApi)
     (lookup : ModuleLookup (World := World) (ModuleHandle := ModuleHandle))
     reader module_def s s',
     convertModule lookup reader module_def s = (Ret tt, s') →
     ∃ tr, trace s' = trace s ++ tr ∧
       lookup_paths tr = map (app (moduleStack_ s)) (preorder_paths module_def) ∧
       visit reader (tensor_table_ s) (moduleStack_ s) module_def tr ∧
       moduleStack_ s' = moduleStack_ s) ∧
  (∀ reader module_def
     (s s' : State (World := ScriptModule) (ModuleHandle := list string)),
     (∀ m d t m', import_methods_on m d t = Some m' → modules m' = modules m) →
     distinct_sibling_names module_def = true →
     world s = new_ScriptModule →
     moduleStack_ s = [] →
     convertModule (API := load_ModuleApi) load_module_lookup reader module_def s
     = (Ret tt, s') →
     module_shape (world s') = def_shape module_def).
Proof.
  split.
  - intros World ModuleHandle API lookup reader module_def s s' Hrun.
    apply convertModule_visit in Hrun as (tr & Htr & Hv & Hst & _).
    exists tr. repeat match goal with |- _ ∧ _ => split end; try done.
    eapply visit_lookup_paths. exact Hv.
  - apply convertModule_load_shape.
Qed.

(** C8 (what the code does on an unopenable path): load(filename) fails with
    the open error before a deserializer exists, whereas
    import_ir_module(lookup, filename) makes no open check: it behaves as
    import_ir_module on a stream whose fail bit is set, so the reader is
    constructed over the failed stream, and whatever follows is never the
    open error. *)
Theorem import_ir_module_filename_skips_open_check
    {World ModuleHandle : Type} `{API : !ModuleApi (ScalarType := ScalarType)
       (World := World) (ModuleHandle := ModuleHandle)}
    (lookup : ModuleLookup) (fs : FileSystem) (filename : string) (w : World) :
  fs filename = None →
  load_filename fs filename
  = (Throw ArchiveOpenError, new_deserializer new_ScriptModule) ∧
  import_ir_module_filename lookup fs filename w
  = import_ir_module_istream lookup (mkIstream true []) w ∧
  (import_ir_module_filename lookup fs filename w).1 ≠ Throw ArchiveOpenError.
Proof.
  intros Hopen. unfold load_filename, import_ir_module_filename,
    import_ir_module_istream, ScriptModuleDeserializer_filename,
    ScriptModuleDeserializer_istream, ifstream.
  rewrite Hopen. cbn. repeat split.
  apply run_deserializer_no_open_error.
Qed.

(** C9: when the file can be opened, load(filename) gives exactly what
    load(stream) gives on a stream over the bytes of the file: the same
    module tree on success, the same failure otherwise. *)
Theorem load_filename_delegates (fs : FileSystem) (filename : string)
    (file_bytes : bytes) :
  fs filename = Some file_bytes →
  load_filename fs filename = load_istream (mkIstream false file_bytes).
Proof.
  intros Hopen. unfold load_filename, ifstream. rewrite Hopen. reflexivity.
Qed.

End LoadFacts.

(** * Further properties of the passes *)

Set Warnings "-clear-no-such-hyp".

Section PassFacts.

Context {ScalarType World ModuleHandle : Type}.
Context `{RT : !Runtime (ScalarType := ScalarType)}.
Context `{API : !ModuleApi (ScalarType := ScalarType) (World := World)
                           (ModuleHandle := ModuleHandle)}.

Notation State := (State (ScalarType := ScalarType) (World := World)
                         (ModuleHandle := ModuleHandle)).
Notation M := (M (ScalarType := ScalarType) (World := World)
                 (ModuleHandle := ModuleHandle)).
Notation Event := (Event (ScalarType := ScalarType) (ModuleHandle := ModuleHandle)).
Notation StorageImpl := (StorageImpl (ScalarType := ScalarType)).
Notation Tensor := (Tensor (ScalarType := ScalarType)).

Implicit Types (s : State) (reader : PyTorchStreamReader).

(** ** One storage per record key *)

Lemma storageMap_valid_insert (sm : gmap N nat) (hp : list StorageImpl) k impl :
  storageMap_valid sm hp → sm !! k = None →
  storageMap_valid (<[k := length hp]> sm) (hp ++ [impl]).
Proof.
  intros [Hlt Hinj] Hk. split.
  - intros k' st. rewrite length_app. cbn.
    destruct (decide (k = k')) as [->|Hne].
    + rewrite lookup_insert_eq. intros [= <-]. lia.
    + rewrite lookup_insert_ne by exact Hne. intros Hst.
      specialize (Hlt _ _ Hst). lia.
  - intros k1 k2 st.
    destruct (decide (k = k1)) as [Heq1|Hne1];
      destruct (decide (k = k2)) as [Heq2|Hne2].
    + congruence.
    + subst k1. rewrite lookup_insert_eq, lookup_insert_ne by exact Hne2.
      intros [= <-] Hst. specialize (Hlt _ _ Hst). lia.
    + subst k2. rewrite lookup_insert_eq, lookup_insert_ne by exact Hne1.
      intros Hst [= <-]. specialize (Hlt _ _ Hst). lia.
    + rewrite !lookup_insert_ne by assumption. apply Hinj.
Qed.

Lemma loadTensorTable_loop_storages reader ts : ∀ sm s s',
  storageMap_valid sm (heap s) →
  loadTensorTable_loop reader ts sm s = (Ret tt, s') →
  ∃ sm' tbl hp tr,
    tensor_table_ s' = tensor_table_ s ++ tbl ∧
    heap s' = heap s ++ hp ∧
    trace s' = trace s ++ tr ∧
    sm ⊆ sm' ∧
    storageMap_valid sm' (heap s') ∧
    length tr = length hp ∧
    size sm' = size sm + length hp ∧
    dom sm' = dom sm ∪ list_to_set (tensor_keys ts) ∧
    (∀ i td, ts !! i = Some td →
       ∃ k t, stoull (ref_key (data td)) = Some k ∧
              tbl !! i = Some t ∧ sm' !! k = Some (t_storage t) ∧
              typeMetaToScalarType (data_type td) = Some (t_dtype t)) ∧
    (∀ k st, sm' !! k = Some st → sm !! k = None →
       ∃ i td ty rec,
         ts !! i = Some td ∧ stoull (ref_key (data td)) = Some k ∧
         (∀ j tdj, j < i → ts !! j = Some tdj →
                   stoull (ref_key (data tdj)) ≠ Some k) ∧
         typeMetaToScalarType (data_type td) = Some ty ∧
         getRecordWithKey reader k = Some rec ∧
         N.of_nat (length rec) = ref_size (data td) ∧
         heap s' !! st
         = Some (mkStorageImpl ty rec (N.of_nat (length rec) / itemsize ty)%N)).
Proof.
  induction ts as [|td ts IH]; intros sm s s' Hvalid Hrun.
  - cbn in Hrun. injection Hrun as <-.
    exists sm, [], [], []. rewrite !app_nil_r. cbn.
    repeat match goal with |- _ ∧ _ => split end; try done.
    + set_solver.
    + intros k st Hk Hnone. congruence.
  - cbn [loadTensorTable_loop] in Hrun.
    apply bind_Ret_inv in Hrun as ([t sm1] & s1 & Hld & Hrun).
    apply bind_Ret_inv in Hrun as ([] & s2 & Hpush & Hrun).
    cbn [fst snd] in *.
    unfold tensor_table_emplace_back in Hpush. injection Hpush as <-.
    rewrite loadTensor_run in Hld.
    destruct (typeMetaToScalarType (data_type td)) as [ty|] eqn:Hty; [|discriminate].
    destruct (stoull (ref_key (data td))) as [k0|] eqn:Hk0; [|discriminate].
    assert (Hkeys : tensor_keys (td :: ts) = k0 :: tensor_keys ts).
    { unfold tensor_keys. cbn. rewrite Hk0. reflexivity. }
    destruct (sm !! k0) as [st0|] eqn:Hsm.
    + (* the key is already in the map *)
      injection Hld as <- <- <-.
      apply IH in Hrun as (sm' & tbl & hp & tr & Htb & Hhp & Htr & Hsub & Hvalid'
                           & Hlen & Hsize & Hdom & Hview & Hfirst);
        [|exact Hvalid].
      cbn in Htb, Hhp, Htr.
      exists sm', (mkTensor st0 (offset td) (dims td) (strides td) ty
                           (requires_grad td) :: tbl), hp, tr.
      rewrite Htb, <- app_assoc. cbn [app].
      repeat match goal with |- _ ∧ _ => split end; try done.
      * rewrite Hdom, Hkeys. cbn [list_to_set].
        assert (k0 ∈ dom sm) by (apply elem_of_dom; eauto). set_solver.
      * intros [|i] td' Hi; cbn in Hi.
        -- injection Hi as <-. exists k0. eexists. repeat split; try done.
           cbn. eapply lookup_weaken; eauto.
        -- apply Hview in Hi. exact Hi.
      * intros k st Hk Hnone.
        destruct (Hfirst k st Hk Hnone)
          as (i & tdi & tyi & rec & Hi & Hki & Hbefore & Htyi & Hrec & Hsz & Hheap).
        exists (S i), tdi, tyi, rec.
        repeat match goal with |- _ ∧ _ => split end; try done.
        intros [|j] tdj Hj Htdj; cbn in Htdj.
        -- injection Htdj as <-. rewrite Hk0. intros [= ->]. congruence.
        -- apply (Hbefore j); [lia | exact Htdj].
    + (* first reference: the record is fetched *)
      destruct (getRecordWithKey reader k0) as [rec|] eqn:Hrec; [|discriminate].
      destruct (N.eqb_spec (N.of_nat (length rec)) (ref_size (data td))) as [Hsz|];
        [|discriminate].
      injection Hld as <- <- <-.
      apply IH in Hrun as (sm' & tbl & hp & tr & Htb & Hhp & Htr & Hsub & Hvalid'
                           & Hlen & Hsize & Hdom & Hview & Hfirst).
      2: { cbn. apply storageMap_valid_insert; assumption. }
      cbn in Htb, Hhp, Htr.
      exists sm', (mkTensor (length (heap s)) (offset td) (dims td) (strides td)
                           ty (requires_grad td) :: tbl),
             (mkStorageImpl ty rec (N.of_nat (length rec) / itemsize ty)%N :: hp),
             (EvGetRecordWithKey k0 :: tr).
      rewrite Htb, Hhp, Htr, <- !app_assoc. cbn [app length].
      assert (Hin : sm' !! k0 = Some (length (heap s))).
      { eapply lookup_weaken; [|exact Hsub]. apply lookup_insert_eq. }
      repeat match goal with |- _ ∧ _ => split end; try done.
      * etrans; [|exact Hsub]. apply insert_subseteq. exact Hsm.
      * rewrite Hhp, <- app_assoc in Hvalid'. exact Hvalid'.
      * lia.
      * rewrite Hsize, map_size_insert_None by exact Hsm. lia.
      * rewrite Hdom, Hkeys, dom_insert_L. cbn [list_to_set]. set_solver.
      * intros [|i] td' Hi; cbn in Hi.
        -- injection Hi as <-. exists k0. eexists. repeat split; done.
        -- apply Hview in Hi. exact Hi.
      * intros k st Hk Hnone.
        destruct (decide (k0 = k)) as [<-|Hne].
        -- exists 0, td, ty, rec.
           repeat match goal with |- _ ∧ _ => split end; try done.
           ++ intros j tdj Hj. lia.
           ++ assert (st = length (heap s)) as -> by congruence.
              apply list_lookup_middle. reflexivity.
        -- assert (Hnone1 : <[k0 := length (heap s)]> sm !! k = None)
             by (rewrite lookup_insert_ne; assumption).
           destruct (Hfirst k st Hk Hnone1)
             as (i & tdi & tyi & reci & Hi & Hki & Hbefore & Htyi & Hreci & Hszi
                 & Hheap).
           exists (S i), tdi, tyi, reci.
           repeat match goal with |- _ ∧ _ => split end; try done.
           2: { rewrite Hhp, <- app_assoc in Hheap. exact Hheap. }
           intros [|j] tdj Hj Htdj; cbn in Htdj.
           ++ injection Htdj as <-. rewrite Hk0. intros [= ->]. congruence.
           ++ apply (Hbefore j); [lia | exact Htdj].
Qed.

Lemma storageMap_valid_empty (hp : list StorageImpl) : storageMap_valid ∅ hp.
Proof.
  split.
  - intros k st Hk. rewrite lookup_empty in Hk. discriminate.
  - intros k1 k2 st Hk. rewrite lookup_empty in Hk. discriminate.
Qed.

(** X1: a successful tensor pass allocates exactly one storage per distinct
    record key referenced by the tensor descriptors, and fetches exactly one
    record per storage; two tensors of the table share their storage exactly
    when their descriptors carry the same key, and every tensor points to a
    storage of the heap. *)
Theorem loadTensorTable_one_storage_per_key reader model_def s s' :
  loadTensorTable reader model_def s = (Ret tt, s') →
  ∃ tbl hp tr,
    tensor_table_ s' = tensor_table_ s ++ tbl ∧
    heap s' = heap s ++ hp ∧
    trace s' = trace s ++ tr ∧
    length hp = size (list_to_set (tensor_keys (tensors model_def)) : gset N) ∧
    length tr = length hp ∧
    ∀ i j tdi tdj ki kj ti tj,
      tensors model_def !! i = Some tdi →
      tensors model_def !! j = Some tdj →
      stoull (ref_key (data tdi)) = Some ki →
      stoull (ref_key (data tdj)) = Some kj →
      tbl !! i = Some ti → tbl !! j = Some tj →
      (t_storage ti = t_storage tj ↔ ki = kj) ∧
      t_storage ti < length (heap s').
Proof.
  unfold loadTensorTable. intros Hrun.
  apply loadTensorTable_loop_storages in Hrun
    as (sm' & tbl & hp & tr & Htb & Hhp & Htr & _ & [Hlt Hinj] & Hlen & Hsize
        & Hdom & Hview & _); [|apply storageMap_valid_empty].
  exists tbl, hp, tr.
  repeat match goal with |- _ ∧ _ => split end; try done.
  - rewrite map_size_empty in Hsize. rewrite dom_empty_L, (left_id_L ∅ (∪)) in Hdom.
    rewrite <- Hdom, size_dom. lia.
  - intros i j tdi tdj ki kj ti tj Hi Hj Hki Hkj Hti Htj.
    destruct (Hview i tdi Hi) as (ki' & ti' & Hki' & Hti' & Hsi & _).
    destruct (Hview j tdj Hj) as (kj' & tj' & Hkj' & Htj' & Hsj & _).
    assert (ki' = ki) as -> by congruence. assert (kj' = kj) as -> by congruence.
    assert (ti' = ti) as -> by congruence. assert (tj' = tj) as -> by congruence.
    split; [split|].
    + intros Heq. rewrite Heq in Hsi. exact (Hinj _ _ _ Hsi Hsj).
    + intros <-. congruence.
    + exact (Hlt _ _ Hsi).
Qed.

(** X2: after a successful tensor pass, the storage a tensor points to was
    built from the first descriptor of the list that references the same
    record key: it holds the bytes of that record, whose length is the size
    that first descriptor declares, and its element type and element count
    are those of the first descriptor's data type; the tensor itself carries
    the data type of its own descriptor. *)
Theorem loadTensorTable_storage_of_first_reference reader model_def s s' :
  loadTensorTable reader model_def s = (Ret tt, s') →
  ∃ tbl,
    tensor_table_ s' = tensor_table_ s ++ tbl ∧
    ∀ i td k t,
      tensors model_def !! i = Some td →
      stoull (ref_key (data td)) = Some k →
      tbl !! i = Some t →
      typeMetaToScalarType (data_type td) = Some (t_dtype t) ∧
      ∃ i0 td0 ty0 rec,
        i0 ≤ i ∧
        tensors model_def !! i0 = Some td0 ∧
        stoull (ref_key (data td0)) = Some k ∧
        (∀ j tdj, j < i0 → tensors model_def !! j = Some tdj →
                  stoull (ref_key (data tdj)) ≠ Some k) ∧
        typeMetaToScalarType (data_type td0) = Some ty0 ∧
        getRecordWithKey reader k = Some rec ∧
        N.of_nat (length rec) = ref_size (data td0) ∧
        heap s' !! t_storage t
        = Some (mkStorageImpl ty0 rec (N.of_nat (length rec) / itemsize ty0)%N).
Proof.
  unfold loadTensorTable. intros Hrun.
  apply loadTensorTable_loop_storages in Hrun
    as (sm' & tbl & hp & tr & Htb & _ & _ & _ & _ & _ & _ & _ & Hview & Hfirst);
    [|apply storageMap_valid_empty].
  exists tbl. split; [exact Htb|].
  intros i td k t Hi Hk Ht.
  destruct (Hview i td Hi) as (k' & t' & Hk' & Ht' & Hst & Hty).
  assert (k' = k) as -> by congruence. assert (t' = t) as -> by congruence.
  split; [exact Hty|].
  destruct (Hfirst k (t_storage t) Hst (lookup_empty k))
    as (i0 & td0 & ty0 & rec & Hi0 & Hk0 & Hbefore & Hty0 & Hrec & Hsz & Hheap).
  exists i0, td0, ty0, rec.
  repeat match goal with |- _ ∧ _ => split end; try done.
  destruct (le_lt_dec i0 i) as [Hle|Hlt]; [exact Hle|].
  exfalso. exact (Hbefore i td Hlt Hi Hk).
Qed.

(** ** What a successful build has checked, and the order of code loading *)

Notation import_calls := (import_calls (ScalarType := ScalarType)
                            (ModuleHandle := ModuleHandle)).

Lemma import_calls_app (tr1 tr2 : list Event) :
  import_calls (tr1 ++ tr2) = import_calls tr1 ++ import_calls tr2.
Proof. apply omap_app. Qed.

Lemma visit_parameters_in_range reader (table : list Tensor) :
  ∀ module_def path tr,
  visit (ModuleHandle := ModuleHandle) reader table path module_def tr →
  Forall (fun d => Forall (fun p => is_Some (vector_at table (tensor_id p)))
                          (parameters d))
         (preorder_modules module_def).
Proof.
  induction module_def as [n o subs ps arena IHsubs] using ModuleDef_tree_ind.
  intros path tr Hv. inversion Hv as [? ? module tr_subs tr_params key data_
    Hchildren Hparams Hkey Hrec Hsz]; subst. cbn [submodules parameters] in *.
  cbn [preorder_modules submodules]. constructor.
  - cbn [parameters]. clear -Hparams.
    induction Hparams as [|p e ps tr (t & Ht & _) _ IH]; constructor; eauto.
  - clear -IHsubs Hchildren.
    induction Hchildren as [|path sub rest tr1 tr2 Hsub Hrest IH]; [constructor|].
    inversion IHsubs as [|? ? IHsub IHrest]; subst.
    cbn [map concat]. apply Forall_app. split; [eapply IHsub; exact Hsub|].
    apply IH. exact IHrest.
Qed.

Lemma visit_import_calls reader (table : list Tensor) :
  ∀ module_def path tr,
  visit (ModuleHandle := ModuleHandle) reader table path module_def tr →
  Forall2 (fun call d =>
             arena_record reader d = Some call.1 ∧
             N.of_nat (length call.1) = ref_size (torchscript_arena d) ∧
             call.2 = table)
          (import_calls tr) (postorder_modules module_def).
Proof.
  induction module_def as [n o subs ps arena IHsubs] using ModuleDef_tree_ind.
  intros path tr Hv. inversion Hv as [? ? module tr_subs tr_params key data_
    Hchildren Hparams Hkey Hrec Hsz]; subst.
  cbn [submodules parameters torchscript_arena] in *.
  assert (Hps : import_calls tr_params = []).
  { clear -Hparams. induction Hparams as [|p e ps tr (t & _ & ->) _ IH];
      [reflexivity | exact IH]. }
  rewrite !import_calls_app, Hps.
  change (import_calls [EvModuleLookup _; EvSetOptimized _ _])
    with (@nil (bytes * list Tensor)).
  change (import_calls [EvGetRecordWithKey _; EvImportMethods _ _ _])
    with [(data_, table)].
  cbn [app postorder_modules submodules].
  apply Forall2_app.
  - clear -IHsubs Hchildren.
    induction Hchildren as [|path sub rest tr1 tr2 Hsub Hrest IH]; [constructor|].
    inversion IHsubs as [|? ? IHsub IHrest]; subst.
    rewrite import_calls_app. cbn [map concat]. apply Forall2_app.
    + eapply IHsub. exact Hsub.
    + apply IH. exact IHrest.
  - constructor; [|constructor]. cbn. unfold arena_record. cbn.
    rewrite Hkey. done.
Qed.

(** X4: a successful deserialize has found every tensor id of every
    parameter descriptor of every module of the tree in range: taken modulo
    2^64 (the conversion of the 64-bit id to an index), it is below the number
    of tensor descriptors of the model. *)
Theorem deserialize_parameters_in_range reader lookup w s' :
  deserialize reader lookup (new_deserializer w) = (Ret tt, s') →
  ∃ json bin model_def,
    getLastRecord reader = Some json ∧
    JsonToBinaryString json = Some bin ∧
    ParseFromString bin = Some model_def ∧
    ∀ d p, d ∈ preorder_modules (main_module model_def) →
           p ∈ parameters d →
           (0 ≤ tensor_id p `mod` 2 ^ 64
            < Z.of_nat (length (tensors model_def)))%Z.
Proof.
  intros Hrun. rewrite deserialize_run in Hrun.
  destruct (getLastRecord reader) as [json|] eqn:Hlast; [|discriminate].
  destruct (JsonToBinaryString json) as [bin|] eqn:Hjson; [|discriminate].
  destruct (ParseFromString bin) as [model_def|] eqn:Hparse; [|discriminate].
  apply bind_Ret_inv in Hrun as ([] & s1 & Htensors & Hmodules).
  unfold loadTensorTable in Htensors.
  apply loadTensorTable_loop_Ret in Htensors
    as (sm' & tbl & hp & tr1 & _ & _ & Htb1 & _ & _ & Hlen & _).
  2: { intros k st Hk. rewrite lookup_empty in Hk. discriminate. }
  apply convertModule_visit in Hmodules as (tr2 & _ & Hv & _).
  apply visit_parameters_in_range in Hv.
  exists json, bin, model_def.
  split; [reflexivity|]. split; [exact Hjson|]. split; [exact Hparse|].
  intros d p Hd Hp. split.
  - apply Z.mod_pos_bound. reflexivity.
  - rewrite Forall_forall in Hv. specialize (Hv d Hd). rewrite Forall_forall in Hv.
    destruct (Hv p Hp) as [t Ht]. unfold vector_at in Ht.
    apply lookup_lt_Some in Ht. rewrite Htb1 in Ht. cbn in Ht.
    rewrite Hlen in Ht.
    pose proof (Z.mod_pos_bound (tensor_id p) (2 ^ 64) eq_refl). lia.
Qed.

(** X5: during a successful build the code loader is called exactly once
    per module of the descriptor tree, for the submodules of a module (from
    left to right, each with its own subtree first) before the module itself;
    each call receives the bytes of the record of that module's code arena,
    whose length is the declared size, and the tensor table of the
    deserializer. *)
Theorem convertModule_loads_code_in_postorder lookup reader module_def s s' :
  convertModule lookup reader module_def s = (Ret tt, s') →
  ∃ tr, trace s' = trace s ++ tr ∧
    Forall2 (fun call d =>
               arena_record reader d = Some call.1 ∧
               N.of_nat (length call.1) = ref_size (torchscript_arena d) ∧
               call.2 = tensor_table_ s)
            (import_calls tr) (postorder_modules module_def).
Proof.
  intros Hrun. apply convertModule_visit in Hrun as (tr & Htr & Hv & _).
  exists tr. split; [exact Htr|]. eapply visit_import_calls. exact Hv.
Qed.

(** ** Failures: what has happened before them *)

Lemma for_each_convertParameter_run module (table : list Tensor) ps ts :
  Forall2 (fun p t => vector_at table (tensor_id p) = Some t) ps ts →
  ∀ s, tensor_table_ s = table →
  for_each (convertParameter module) ps s =
  (Ret tt,
   mkState
     (foldl (fun w' pt => register_parameter module (param_name pt.1) pt.2
                            (is_buffer pt.1) w')
            (world s) (zip ps ts))
     (moduleStack_ s) (tensor_table_ s) (heap s)
     (trace s ++ map (fun pt => EvRegisterParameter module (param_name pt.1) pt.2
                                  (is_buffer pt.1))
                     (zip ps ts))).
Proof.
  induction 1 as [|p t ps ts Hp _ IH]; intros s Htable; cbn [for_each zip zip_with].
  - cbn. rewrite app_nil_r. destruct s; reflexivity.
  - unfold bind at 1. rewrite convertParameter_run, Htable, Hp.
    rewrite IH by exact Htable. cbn. rewrite <- app_assoc, ?Htable. reflexivity.
Qed.

(** X6: a failure of the code-arena size check is not atomic. For a module
    without submodules whose lookup succeeds and whose parameter ids are all
    in range, a code-arena record of another size than declared makes the
    build fail with the code-arena size mismatch only after the optimize flag
    was set and every parameter was registered on the module: these changes
    stay in the caller's objects, and the code loader has not been called. *)
Theorem convertModule_arena_mismatch_after_parameters
    (lookup : ModuleLookup) reader module_def s module w ts key data_ :
  submodules module_def = [] →
  lookup (moduleStack_ s) (world s) = Some (module, w) →
  Forall2 (fun p t => vector_at (tensor_table_ s) (tensor_id p) = Some t)
          (parameters module_def) ts →
  stoull (ref_key (torchscript_arena module_def)) = Some key →
  getRecordWithKey reader key = Some data_ →
  N.of_nat (length data_) ≠ ref_size (torchscript_arena module_def) →
  ∃ s' tr,
    convertModule lookup reader module_def s
    = (Throw CodeArenaSizeMismatchError, s') ∧
    world s'
    = foldl (fun w' pt => register_parameter module (param_name pt.1) pt.2
                            (is_buffer pt.1) w')
            (set_optimized module (optimize module_def) w)
            (zip (parameters module_def) ts) ∧
    trace s' = trace s ++ tr ∧
    import_calls tr = [] ∧
    length (List.filter (fun e => match e with
                                  | EvRegisterParameter _ _ _ _ => true
                                  | _ => false
                                  end) tr)
    = length (parameters module_def).
Proof.
  intros Hsubs Hlk Hps Hkey Hrec Hsz.
  rewrite convertModule_eq, Hsubs. cbn [for_each].
  unfold bind at 1. rewrite call_moduleLookup_run, Hlk.
  unfold bind at 1. rewrite call_set_optimized_run.
  unfold bind at 1. unfold ret at 1.
  unfold bind at 1.
  rewrite (for_each_convertParameter_run module (tensor_table_ s) _ ts Hps)
    by reflexivity.
  rewrite convertArena_run, Hkey. cbn zeta. rewrite Hrec.
  destruct (N.eqb_spec (N.of_nat (length data_))
              (ref_size (torchscript_arena module_def))) as [|_]; [contradiction|].
  eexists _, _. split; [reflexivity|]. cbn.
  split; [reflexivity|]. split; [rewrite <- !app_assoc; reflexivity|].
  pose proof (Forall2_length _ _ _ Hps) as Hlen. clear -Hlen.
  assert (Hregs : ∀ ps (ts : list Tensor), length ps = length ts →
    import_calls
      (map (fun pt : ParameterDef * Tensor =>
              EvRegisterParameter module (param_name pt.1) pt.2 (is_buffer pt.1))
           (zip ps ts)) = [] ∧
    length (List.filter (fun e : Event => match e with
                                  | EvRegisterParameter _ _ _ _ => true
                                  | _ => false
                                  end)
              (map (fun pt : ParameterDef * Tensor =>
                      EvRegisterParameter module (param_name pt.1) pt.2
                        (is_buffer pt.1))
                   (zip ps ts))) = length ps).
  { clear. induction ps as [|p ps IH]; intros [|t ts] Hlen; cbn in *; try done.
    destruct (IH ts ltac:(lia)) as [IH1 IH2]. split; [exact IH1 | lia]. }
  destruct (Hregs _ _ Hlen) as [Himp Hcount].
  rewrite !import_calls_app, !List.filter_app, !length_app, Himp, Hcount.
  cbn. split; [reflexivity | lia].
Qed.

Lemma convertModule_never_throws (lookup : ModuleLookup) reader e0 :
  e0 ≠ ModuleLookupError → e0 ≠ InvalidTensorIdError →
  e0 ≠ InvalidRecordKeyError → e0 ≠ ArchiveReadError →
  e0 ≠ CodeArenaSizeMismatchError → e0 ≠ CodeLoaderError →
  ∀ module_def,
    never_throws e0 (convertModule lookup reader module_def : M unit).
Proof.
  intros H1 H2 H3 H4 H5 H6.
  induction module_def as [n o subs ps arena IHsubs] using ModuleDef_tree_ind.
  rewrite convertModule_eq. cbn [optimize submodules parameters torchscript_arena].
  apply never_throws_bind.
  { intros s e s'. rewrite call_moduleLookup_run.
    repeat case_match; intros [= <- <-]; done. }
  intros module. apply never_throws_bind.
  { apply never_throws_total. intros s. eexists _, _. reflexivity. }
  intros _. apply never_throws_bind.
  { apply never_throws_for_each. eapply Forall_impl; [exact IHsubs|].
    intros sub IHsub. cbn beta.
    apply never_throws_bind.
    { apply never_throws_total. intros s. eexists _, _. reflexivity. }
    intros _. apply never_throws_bind; [exact IHsub|]. intros _.
    apply never_throws_total. intros s. eexists _, _. reflexivity. }
  intros _. apply never_throws_bind.
  { apply never_throws_for_each. apply Forall_forall. intros p _ s e s'.
    rewrite convertParameter_run. repeat case_match; intros [= <- <-]; done. }
  intros _ s e s'. rewrite convertArena_run. cbn zeta.
  repeat case_match; intros [= <- <-]; done.
Qed.

Lemma never_throws_weaken {A} (m : M A) (P : Error → Prop) e0 :
  (∀ s e s', m s = (Throw e, s') → P e) → ¬ P e0 → never_throws e0 m.
Proof. intros Hm HP s e s' Hrun ->. apply HP. eapply Hm. exact Hrun. Qed.

Lemma loadTensorTable_loop_never_throws reader e0 :
  e0 ≠ UnsupportedDataTypeError → e0 ≠ InvalidRecordKeyError →
  e0 ≠ ArchiveReadError → e0 ≠ StorageSizeMismatchError →
  ∀ ts sm, never_throws e0 (loadTensorTable_loop reader ts sm : M unit).
Proof.
  intros H1 H2 H3 H4. induction ts as [|td ts IH]; intros sm;
    cbn [loadTensorTable_loop].
  - apply never_throws_total. intros s. eexists _, _. reflexivity.
  - apply never_throws_bind.
    { intros s e s'. rewrite loadTensor_run.
      repeat case_match; intros [= <- <-]; done. }
    intros r. apply never_throws_bind; [|intros _; apply IH].
    apply never_throws_total. intros s. eexists _, _. reflexivity.
Qed.

Lemma keeps_tables_bind {A B} (m : M A) (k : A → M B) :
  keeps_tables m → (∀ a, keeps_tables (k a)) → keeps_tables (bind m k).
Proof.
  intros Hm Hk s o s'. unfold bind.
  destruct (m s) as [[a|e] s1] eqn:Hms.
  - intros Hks. destruct (Hm _ _ _ Hms) as (Htb1 & Hhp1 & tr1 & Htr1).
    destruct (Hk a _ _ _ Hks) as (Htb2 & Hhp2 & tr2 & Htr2).
    split; [congruence|]. split; [congruence|].
    exists (tr1 ++ tr2). rewrite Htr2, Htr1, <- app_assoc. reflexivity.
  - intros [= <- <-]. eapply Hm. exact Hms.
Qed.

Lemma keeps_tables_for_each {A} (body : A → M unit) l :
  Forall (fun x => keeps_tables (body x)) l → keeps_tables (for_each body l).
Proof.
  induction 1 as [|x l Hx _ IH]; cbn [for_each].
  - intros s o s' [= <- <-]. repeat split. exists []. rewrite app_nil_r. reflexivity.
  - apply keeps_tables_bind; [exact Hx | intros _; exact IH].
Qed.

Lemma keeps_tables_step {A} (m : M A) :
  (∀ s, tensor_table_ (m s).2 = tensor_table_ s ∧ heap (m s).2 = heap s ∧
        ∃ tr, trace (m s).2 = trace s ++ tr) →
  keeps_tables m.
Proof. intros Hm s o s' Hrun. specialize (Hm s). rewrite Hrun in Hm. exact Hm. Qed.

(** Whatever its outcome, a build leaves the tensor table and the heap as
    they were, and its first call is the lookup of its own qualified name. *)
Lemma convertModule_frame (lookup : ModuleLookup) reader : ∀ module_def s o s',
  convertModule lookup reader module_def s = (o, s') →
  tensor_table_ s' = tensor_table_ s ∧ heap s' = heap s ∧
  ∃ tr, trace s' = trace s ++ EvModuleLookup (moduleStack_ s) :: tr.
Proof.
  induction module_def as [n o subs ps arena IHsubs] using ModuleDef_tree_ind.
  intros s out s' Hrun. rewrite convertModule_eq in Hrun.
  cbn [optimize submodules parameters torchscript_arena] in Hrun.
  unfold bind at 1 in Hrun. rewrite call_moduleLookup_run in Hrun.
  destruct (lookup (moduleStack_ s) (world s)) as [[module w]|].
  2: { injection Hrun as <- <-. repeat split. exists []. reflexivity. }
  match type of Hrun with ?k _ = _ =>
    assert (Hk : keeps_tables (k : M unit)) end.
  { apply keeps_tables_bind.
    { apply keeps_tables_step. intros s0. cbn. repeat split. eexists. reflexivity. }
    intros _. apply keeps_tables_bind.
    { apply keeps_tables_for_each. eapply Forall_impl; [exact IHsubs|].
      intros sub IHsub. cbn beta. apply keeps_tables_bind.
      { apply keeps_tables_step. intros s0. cbn. repeat split.
        exists []. rewrite app_nil_r. reflexivity. }
      intros _. apply keeps_tables_bind.
      { intros s0 o0 s0' Hsub. destruct (IHsub _ _ _ Hsub) as (? & ? & tr & ?).
        repeat split; try done. eexists. eassumption. }
      intros _. apply keeps_tables_step. intros s0. cbn. repeat split.
      exists []. rewrite app_nil_r. reflexivity. }
    intros _. apply keeps_tables_bind.
    { apply keeps_tables_for_each. apply Forall_forall. intros p _.
      apply keeps_tables_step. intros s0. rewrite convertParameter_run.
      destruct (vector_at _ _); cbn; repeat split.
      - eexists. reflexivity.
      - exists []. rewrite app_nil_r. reflexivity. }
    intros _. apply keeps_tables_step. intros s0. rewrite convertArena_run.
    cbn zeta. repeat case_match; cbn; repeat split;
      try (eexists; rewrite <- ?app_assoc; reflexivity).
    exists []. rewrite app_nil_r. reflexivity. }
  destruct (Hk _ _ _ Hrun) as (Htb & Hhp & tr & Htr). cbn in Htb, Hhp, Htr.
  repeat split; try done. exists tr. rewrite Htr, <- app_assoc. reflexivity.
Qed.

(** X8: when deserialize fails with the transcode error, the validation
    error, the unsupported-data-type error or the storage size mismatch, the
    failure happened before the module tree was touched: the caller's objects
    are unchanged and only the reader has been called. When it fails with the
    lookup error, the invalid-tensor-id error, the code-arena size mismatch or
    the code-loader error, the metadata was transcoded, the whole tensor table
    was built, and the lookup callback was called for the root module. *)
Theorem deserialize_failure_phase reader lookup s e s' :
  deserialize reader lookup s = (Throw e, s') →
  ((e = MetadataTranscodeError ∨ e = SchemaValidationError ∨
    e = UnsupportedDataTypeError ∨ e = StorageSizeMismatchError) →
   world s' = world s ∧
   ∃ tr, trace s' = trace s ++ tr ∧
         Forall (fun ev => is_reader_event ev = true) tr) ∧
  ((e = ModuleLookupError ∨ e = InvalidTensorIdError ∨
    e = CodeArenaSizeMismatchError ∨ e = CodeLoaderError) →
   ∃ json bin model_def tr,
     getLastRecord reader = Some json ∧
     JsonToBinaryString json = Some bin ∧
     ParseFromString bin = Some model_def ∧
     length (tensor_table_ s')
     = length (tensor_table_ s) + length (tensors model_def) ∧
     trace s' = trace s ++ tr ∧
     In (EvModuleLookup (moduleStack_ s)) tr).
Proof.
  intros Hrun. rewrite deserialize_run in Hrun.
  destruct (getLastRecord reader) as [json|] eqn:Hlast.
  2: { injection Hrun as <- <-. split.
       - intros [|[|[|]]]; discriminate.
       - intros [|[|[|]]]; discriminate. }
  destruct (JsonToBinaryString json) as [bin|] eqn:Hjson.
  2: { injection Hrun as <- <-. split.
       - intros _. split; [reflexivity|]. exists [EvGetLastRecord].
         split; [reflexivity | repeat constructor].
       - intros [|[|[|]]]; discriminate. }
  destruct (ParseFromString bin) as [model_def|] eqn:Hparse.
  2: { injection Hrun as <- <-. split.
       - intros _. split; [reflexivity|]. exists [EvGetLastRecord].
         split; [reflexivity | repeat constructor].
       - intros [|[|[|]]]; discriminate. }
  unfold bind, loadTensorTable in Hrun.
  destruct (loadTensorTable_loop reader (tensors model_def) ∅
              (logged s EvGetLastRecord)) as [[[]|e1] s1] eqn:Htensors.
  - (* the tensor pass succeeded, the build failed *)
    split.
    + intros He. exfalso.
      eapply (convertModule_never_throws lookup reader e);
        [..|exact Hrun|reflexivity];
        destruct He as [->|[->|[->| ->]]]; discriminate.
    + intros _.
      apply loadTensorTable_loop_Ret in Htensors
        as (sm' & tbl & hp & tr1 & _ & Hst1 & Htb1 & _ & Htr1 & Hlen & _).
      2: { intros k st Hk. rewrite lookup_empty in Hk. discriminate. }
      cbn in Hst1, Htb1, Htr1.
      apply convertModule_frame in Hrun as (Htb2 & _ & tr2 & Htr2).
      exists json, bin, model_def,
        ([EvGetLastRecord] ++ tr1 ++ EvModuleLookup (moduleStack_ s) :: tr2).
      repeat match goal with |- _ ∧ _ => split end; try done.
      * rewrite Htb2, Htb1, length_app, Hlen. reflexivity.
      * rewrite Htr2, Htr1, Hst1, <- !app_assoc. reflexivity.
      * apply in_or_app. right. apply in_or_app. right. left. reflexivity.
  - (* the tensor pass failed *)
    injection Hrun as <- <-. split.
    + intros _.
      apply loadTensorTable_loop_frame in Htensors as (Hw & _ & tr & Htr & Hfe).
      cbn in Hw, Htr. split; [exact Hw|]. exists (EvGetLastRecord :: tr).
      rewrite Htr, <- app_assoc. split; [reflexivity|].
      constructor; [reflexivity|].
      eapply Forall_impl; [exact Hfe|]. intros [] Hev; done.
    + intros He. exfalso.
      eapply (loadTensorTable_loop_never_throws reader e1);
        [..|exact Htensors|reflexivity];
        destruct He as [->|[->|[->| ->]]]; discriminate.
Qed.

(** ** The qualified names handed to the lookup callback *)

Lemma preorder_paths_length d :
  length (preorder_paths d) = length (preorder_modules d).
Proof.
  induction d as [n o subs ps arena IHsubs] using ModuleDef_tree_ind.
  cbn [preorder_paths preorder_modules submodules length]. f_equal.
  induction IHsubs as [|sub subs Hsub _ IH]; [reflexivity|].
  cbn [map concat]. rewrite !length_app, length_map, Hsub, IH. reflexivity.
Qed.

Lemma elem_of_concat {A} (x : A) (ls : list (list A)) :
  x ∈ concat ls → ∃ l, x ∈ l ∧ l ∈ ls.
Proof.
  intros Hx. apply list_elem_of_In, in_concat in Hx as (l & Hl & Hx).
  exists l. split; apply list_elem_of_In; assumption.
Qed.

Lemma preorder_paths_blocks_NoDup subs :
  Forall (fun sub => NoDup (preorder_paths sub)) subs →
  NoDup (map name subs) →
  NoDup (concat (map (fun sub => map (cons (name sub)) (preorder_paths sub)) subs)).
Proof.
  induction 1 as [|sub subs Hsub _ IH]; intros Hnd; [constructor|].
  apply NoDup_cons in Hnd as [Hnotin Hnd]. cbn [map concat].
  apply NoDup_app. split; [|split].
  - apply NoDup_fmap_2; [|exact Hsub]. intros q1 q2 [= ->]. reflexivity.
  - intros q Hq Hq'.
    apply list_elem_of_fmap in Hq as (q0 & -> & _).
    apply elem_of_concat in Hq' as (block & Hin & Hblock).
    apply list_elem_of_fmap in Hblock as (sub' & -> & Hsub').
    apply list_elem_of_fmap in Hin as (q1 & [= Hname _] & _).
    apply Hnotin. rewrite Hname. apply list_elem_of_fmap_2. exact Hsub'.
  - apply IH. exact Hnd.
Qed.

Lemma preorder_paths_NoDup : ∀ d,
  distinct_sibling_names d = true → NoDup (preorder_paths d).
Proof.
  induction d as [n o subs ps arena IHsubs] using ModuleDef_tree_ind.
  cbn [distinct_sibling_names preorder_paths submodules].
  intros [Hnd Hall]%andb_prop. apply bool_decide_eq_true_1 in Hnd.
  apply NoDup_cons. split.
  - intros Hin. apply elem_of_concat in Hin as (block & Hin & Hblock).
    apply list_elem_of_fmap in Hblock as (sub & -> & _).
    apply list_elem_of_fmap in Hin as (q & [=] & _).
  - apply preorder_paths_blocks_NoDup; [|exact Hnd].
    rewrite forallb_forall in Hall. rewrite Forall_forall in IHsubs.
    apply Forall_forall. intros sub Hin. apply IHsubs; [exact Hin|].
    apply Hall. apply list_elem_of_In. exact Hin.
Qed.

(** X10: a successful build calls the lookup callback exactly once per module
    of the descriptor tree; if no two submodules of one module carry the same
    name, the qualified names it is called with are pairwise distinct, so the
    callback is never asked twice for the same module. *)
Theorem convertModule_lookups_distinct (lookup : ModuleLookup) reader module_def
    s s' :
  convertModule lookup reader module_def s = (Ret tt, s') →
  ∃ tr, trace s' = trace s ++ tr ∧
    length (lookup_paths tr) = length (preorder_modules module_def) ∧
    (distinct_sibling_names module_def = true → NoDup (lookup_paths tr)).
Proof.
  intros Hrun. apply convertModule_visit in Hrun as (tr & Htr & Hv & _).
  apply visit_lookup_paths in Hv. exists tr. split; [exact Htr|].
  rewrite Hv. split.
  - rewrite length_map. apply preorder_paths_length.
  - intros Hdistinct. apply NoDup_fmap_2.
    + intros q1 q2 Heq. eapply app_inv_head. exact Heq.
    + apply preorder_paths_NoDup. exact Hdistinct.
Qed.

End PassFacts.


(** * The tree that load builds *)

Section LoadTreeFacts.

Context {ScalarType : Type}.
Context `{RT : !Runtime (ScalarType := ScalarType)}.
Context `{CL : !CodeLoader (ScalarType := ScalarType)}.

Notation ScriptModule := (ScriptModule (ScalarType := ScalarType)).
Notation Tensor := (Tensor (ScalarType := ScalarType)).
Notation Content := (Content (ScalarType := ScalarType)).

Implicit Types (m : ScriptModule) (c : Content).

(** ** Entries of an ordered dictionary *)

Lemma alter_entry_ext_first {A} (f g : A → A) n (l : list (string * A)) :
  (∀ n' x, find (fun nc => bool_decide (nc.1 = n)) l = Some (n', x) → f x = g x) →
  alter_entry n f l = alter_entry n g l.
Proof.
  induction l as [|[n' x] l IH]; intros Hfg; [reflexivity|].
  cbn in *. destruct (bool_decide (n' = n)).
  - rewrite (Hfg n' x); reflexivity.
  - rewrite IH; [reflexivity | exact Hfg].
Qed.

Lemma alter_entry_ext {A} (f g : A → A) n (l : list (string * A)) :
  (∀ x, f x = g x) → alter_entry n f l = alter_entry n g l.
Proof. intros Hfg. apply alter_entry_ext_first. intros _ x _. apply Hfg. Qed.

Lemma alter_entry_id {A} n (l : list (string * A)) :
  alter_entry n (fun x => x) l = l.
Proof.
  induction l as [|[n' x] l IH]; [reflexivity|].
  cbn. destruct (bool_decide (n' = n)); [reflexivity|]. rewrite IH. reflexivity.
Qed.

Lemma alter_entry_compose {A} (f g : A → A) n (l : list (string * A)) :
  alter_entry n f (alter_entry n g l) = alter_entry n (fun x => f (g x)) l.
Proof.
  induction l as [|[n' x] l IH]; [reflexivity|].
  cbn. destruct (bool_decide (n' = n)) eqn:Hn; cbn; rewrite Hn; [reflexivity|].
  rewrite IH. reflexivity.
Qed.

Lemma has_key_alter_entry {A} (f : A → A) n n' (l : list (string * A)) :
  has_key n' (alter_entry n f l) = has_key n' l.
Proof.
  unfold has_key. induction l as [|[n0 x] l IH]; [reflexivity|].
  cbn. destruct (bool_decide (n0 = n)); cbn; [reflexivity|].
  rewrite IH. reflexivity.
Qed.

Lemma find_alter_entry {A} (f : A → A) n (l : list (string * A)) :
  find (fun nc => bool_decide (nc.1 = n)) (alter_entry n f l)
  = match find (fun nc => bool_decide (nc.1 = n)) l with
    | Some (n', x) => Some (n', f x)
    | None => None
    end.
Proof.
  induction l as [|[n' x] l IH]; [reflexivity|].
  cbn. destruct (bool_decide (n' = n)) eqn:Hn; cbn; rewrite Hn; [reflexivity|].
  exact IH.
Qed.

Lemma has_key_find {A} n (l : list (string * A)) :
  has_key n l = true →
  ∃ n' x, find (fun nc => bool_decide (nc.1 = n)) l = Some (n', x).
Proof.
  unfold has_key. induction l as [|[n' x] l IH]; cbn; [discriminate|].
  destruct (bool_decide (n' = n)); cbn; [eauto | exact IH].
Qed.

Lemma find_has_key {A} n (l : list (string * A)) p :
  find (fun nc => bool_decide (nc.1 = n)) l = Some p → has_key n l = true.
Proof.
  unfold has_key. induction l as [|[n' x] l IH]; cbn; [discriminate|].
  destruct (bool_decide (n' = n)); cbn; [reflexivity | exact IH].
Qed.

Lemma has_key_ensured {A} n (x : A) (l : list (string * A)) :
  has_key n (if has_key n l then l else l ++ [(n, x)]) = true.
Proof.
  destruct (has_key n l) eqn:Hn; [exact Hn|].
  rewrite has_key_app. cbn. rewrite bool_decide_eq_true_2 by reflexivity.
  apply orb_true_r.
Qed.

Lemma alter_entry_map_same {A B} (h : A → B) (f : A → A) n (l : list (string * A)) :
  (∀ n' x, find (fun nc => bool_decide (nc.1 = n)) l = Some (n', x) →
           h (f x) = h x) →
  map (fun nc => (nc.1, h nc.2)) (alter_entry n f l)
  = map (fun nc => (nc.1, h nc.2)) l.
Proof.
  induction l as [|[n' x] l IH]; intros Hf; [reflexivity|].
  cbn in *. destruct (bool_decide (n' = n)); cbn.
  - rewrite (Hf n' x); reflexivity.
  - rewrite IH; [reflexivity | exact Hf].
Qed.

(** ** Contents *)

Lemma content_at_ext (f g : Content → Content) h : ∀ c,
  (∀ x, f x = g x) → content_at h f c = content_at h g c.
Proof.
  induction h as [|n h IH]; intros [o ps cs] Hfg; cbn; [apply Hfg|].
  f_equal. apply alter_entry_ext. intros x. apply IH. exact Hfg.
Qed.

Lemma content_at_compose (f g : Content → Content) h : ∀ c,
  content_at h f (content_at h g c) = content_at h (fun x => f (g x)) c.
Proof.
  induction h as [|n h IH]; intros [o ps cs]; cbn; [reflexivity|].
  f_equal. rewrite alter_entry_compose. apply alter_entry_ext. exact IH.
Qed.

Lemma content_at_snoc (f : Content → Content) n h : ∀ c,
  content_at (h ++ [n]) f c = content_at h (alter_child n f) c.
Proof.
  induction h as [|n' h IH]; intros [o ps cs]; cbn.
  - f_equal.
  - f_equal. apply alter_entry_ext. exact IH.
Qed.

Lemma content_ensure_snoc n q : ∀ c,
  content_ensure (q ++ [n]) c
  = content_at q (ensure_child n) (content_ensure q c).
Proof.
  induction q as [|n' q IH]; intros [o ps cs]; cbn.
  - f_equal. apply alter_entry_id.
  - f_equal. rewrite alter_entry_compose. apply alter_entry_ext. exact IH.
Qed.

Lemma has_path_content_ensure q : ∀ c, has_path q (content_ensure q c) = true.
Proof.
  induction q as [|n q IH]; intros [o ps cs]; cbn; [reflexivity|].
  rewrite find_alter_entry.
  destruct (has_key_find n _ (has_key_ensured n fresh_content cs)) as (n' & x & ->).
  apply IH.
Qed.

Lemma content_ensure_has_path q : ∀ c,
  has_path q c = true → content_ensure q c = c.
Proof.
  induction q as [|n q IH]; intros [o ps cs]; cbn; [reflexivity|].
  destruct (find _ cs) as [[n' x]|] eqn:Hfind; [|discriminate].
  intros Hx. rewrite (find_has_key _ _ _ Hfind). f_equal.
  rewrite <- (alter_entry_id n cs) at 2. apply alter_entry_ext_first.
  intros n0 x0 Hfind0. rewrite Hfind in Hfind0. injection Hfind0 as <- <-.
  apply IH. exact Hx.
Qed.

Lemma has_path_content_at (f : Content → Content) q : ∀ c,
  has_path q c = true → has_path q (content_at q f c) = true.
Proof.
  induction q as [|n q IH]; intros [o ps cs]; cbn; [reflexivity|].
  rewrite find_alter_entry.
  destruct (find _ cs) as [[n' x]|]; [|discriminate]. apply IH.
Qed.

(** ** Modules and their contents *)

Lemma module_content_eq m :
  module_content m
  = ContentNode (optimized m) (module_parameters m)
                (map (fun nc => (nc.1, module_content nc.2)) (modules m)).
Proof. destruct m; reflexivity. Qed.

Lemma module_lookup_walk_content qualified_name : ∀ m,
  module_content (module_lookup_walk qualified_name m)
  = content_ensure qualified_name (module_content m).
Proof.
  induction qualified_name as [|n rest IH]; intros m; [reflexivity|].
  cbn [module_lookup_walk]. rewrite (module_content_eq m).
  cbn [content_ensure]. unfold find_module. rewrite has_key_map.
  rewrite module_content_eq. unfold update_module. cbn [modules optimized
    module_parameters].
  rewrite (alter_entry_map module_content _ (content_ensure rest)) by exact IH.
  destruct (has_key n (modules m)); [reflexivity|].
  cbn [register_module modules optimized module_parameters]. rewrite map_app.
  reflexivity.
Qed.

Lemma at_path_content (f : ScriptModule → ScriptModule) (f' : Content → Content) h :
  (∀ x, module_content (f x) = f' (module_content x)) →
  ∀ m, module_content (at_path h f m) = content_at h f' (module_content m).
Proof.
  intros Hf. induction h as [|n h IH]; intros m; cbn [at_path]; [apply Hf|].
  rewrite (module_content_eq m), module_content_eq. unfold update_module.
  cbn [modules optimized module_parameters content_at]. f_equal.
  apply alter_entry_map. exact IH.
Qed.

Lemma at_path_content_same (f : ScriptModule → ScriptModule) h : ∀ m,
  (∀ x, module_at h m = Some x → module_content (f x) = module_content x) →
  module_content (at_path h f m) = module_content m.
Proof.
  induction h as [|n h IH]; intros m Hf; cbn [at_path].
  - apply Hf. reflexivity.
  - rewrite (module_content_eq m), module_content_eq. unfold update_module.
    cbn [modules optimized module_parameters]. f_equal.
    apply alter_entry_map_same. intros n' x Hfind. apply IH.
    intros x' Hx'. apply Hf. cbn [module_at]. rewrite Hfind. exact Hx'.
Qed.

Lemma content_at_id h : ∀ c, content_at h (fun x => x) c = c.
Proof.
  induction h as [|n h IH]; intros [o ps cs]; cbn; [reflexivity|].
  f_equal. rewrite <- (alter_entry_id n cs) at 2. apply alter_entry_ext. exact IH.
Qed.

(** ** The lookup lambda of load *)

Lemma module_at_module_lookup_walk q : ∀ m,
  is_Some (module_at q (module_lookup_walk q m)).
Proof.
  induction q as [|n q IH]; intros m; cbn [module_lookup_walk module_at]; [eauto|].
  unfold update_module. cbn [modules]. rewrite find_alter_entry.
  unfold find_module, register_module.
  pose proof (has_key_ensured n (new_ScriptModule (ScalarType := ScalarType))
                (modules m)) as Hkey.
  destruct (has_key n (modules m)); cbn [modules];
    destruct (has_key_find n _ Hkey) as (n' & x & ->); apply IH.
Qed.

Lemma module_lookup_walk_existing q : ∀ m,
  is_Some (module_at q m) → module_lookup_walk q m = m.
Proof.
  induction q as [|n q IH]; intros m; cbn [module_lookup_walk module_at];
    [reflexivity|].
  destruct (find _ (modules m)) as [[n' x]|] eqn:Hfind; [|intros [? [=]]].
  intros Hx. unfold find_module. rewrite (find_has_key _ _ _ Hfind).
  unfold update_module.
  replace (alter_entry n (module_lookup_walk q) (modules m)) with (modules m).
  { destruct m; reflexivity. }
  rewrite <- (alter_entry_id n (modules m)) at 1. apply alter_entry_ext_first.
  intros n0 x0 Hfind0. rewrite Hfind in Hfind0. injection Hfind0 as <- <-.
  symmetry. apply IH. exact Hx.
Qed.

(** X3: the lookup lambda of load returns a module that is in the tree under
    the qualified name asked for; asked for a name that already leads to a
    module it leaves the whole tree as it is; so asking twice for the same
    name is the same as asking once (the callback is idempotent). *)
Theorem load_module_lookup_idempotent (q : list string) (m : ScriptModule) :
  (∃ m1, load_module_lookup q m = Some (q, m1) ∧
         is_Some (module_at q m1) ∧
         load_module_lookup q m1 = Some (q, m1)) ∧
  (is_Some (module_at q m) → load_module_lookup q m = Some (q, m)).
Proof.
  unfold load_module_lookup. split.
  - exists (module_lookup_walk q m). split; [reflexivity|].
    split; [apply module_at_module_lookup_walk|].
    rewrite module_lookup_walk_existing; [reflexivity|].
    apply module_at_module_lookup_walk.
  - intros Hq. rewrite module_lookup_walk_existing; [reflexivity | exact Hq].
Qed.

(** ** A successful build, on contents *)

Lemma for_each_convertParameter_load_content h ps :
  ∀ (s s' : State (World := ScriptModule) (ModuleHandle := list string)),
  for_each (convertParameter (API := load_ModuleApi) h) ps s = (Ret tt, s') →
  moduleStack_ s' = moduleStack_ s ∧ tensor_table_ s' = tensor_table_ s ∧
  module_content (world s')
  = content_at h (fun c => foldl (register_content (tensor_table_ s)) c ps)
               (module_content (world s)).
Proof.
  induction ps as [|p ps IH]; intros s s' Hrun; cbn [for_each] in Hrun.
  - injection Hrun as <-. repeat split. cbn [foldl]. rewrite content_at_id.
    reflexivity.
  - unfold bind at 1 in Hrun. rewrite convertParameter_run in Hrun.
    destruct (vector_at (tensor_table_ s) (tensor_id p)) as [t|] eqn:Ht;
      [|discriminate].
    apply IH in Hrun as (Hst & Htb & Hc). cbn in Hst, Htb, Hc.
    repeat split; try done. rewrite Hc.
    rewrite (at_path_content _
               (fun c => register_content (tensor_table_ s) c p)).
    + rewrite content_at_compose. reflexivity.
    + intros x. unfold register_content. rewrite Ht. destruct x; reflexivity.
Qed.

Lemma convertModule_load_content reader :
  (∀ m d t m', import_methods_on m d t = Some m' →
     optimized m' = optimized m ∧ module_parameters m' = module_parameters m ∧
     modules m' = modules m) →
  ∀ module_def (s s' : State (World := ScriptModule) (ModuleHandle := list string)),
  convertModule (API := load_ModuleApi) load_module_lookup reader module_def s
  = (Ret tt, s') →
  moduleStack_ s' = moduleStack_ s ∧ tensor_table_ s' = tensor_table_ s ∧
  module_content (world s')
  = content_at (moduleStack_ s) (build_content (tensor_table_ s) module_def)
               (content_ensure (moduleStack_ s) (module_content (world s))).
Proof.
  intros Hloader.
  induction module_def as [n o subs ps arena IHsubs] using ModuleDef_tree_ind.
  intros s s' Hrun. rewrite convertModule_eq in Hrun.
  cbn [optimize submodules parameters torchscript_arena] in Hrun.
  unfold bind at 1 in Hrun. rewrite call_moduleLookup_run in Hrun.
  unfold load_module_lookup at 1 in Hrun.
  unfold bind at 1 in Hrun. rewrite call_set_optimized_run in Hrun.
  apply bind_Ret_inv in Hrun as ([] & s1 & Hsubs & Hrun).
  apply bind_Ret_inv in Hrun as ([] & s2 & Hps & Hrun).
  set (p := moduleStack_ s) in *.
  set (table := tensor_table_ s) in *.
  (* the submodules *)
  assert (Hchildren :
    ∀ (s0 s0' : State (World := ScriptModule) (ModuleHandle := list string)),
    tensor_table_ s0 = table →
    has_path (moduleStack_ s0) (module_content (world s0)) = true →
    for_each (fun sub_def =>
        bind (moduleStack_emplace_back (name sub_def)) (fun _ =>
        bind (convertModule (API := load_ModuleApi) load_module_lookup reader
                sub_def) (fun _ =>
        moduleStack_pop_back))) subs s0 = (Ret tt, s0') →
    moduleStack_ s0' = moduleStack_ s0 ∧ tensor_table_ s0' = tensor_table_ s0 ∧
    module_content (world s0')
    = content_at (moduleStack_ s0)
        (fun c => foldl (fun acc sub =>
                           alter_child (name sub) (build_content table sub)
                                       (ensure_child (name sub) acc)) c subs)
        (module_content (world s0))).
  { clear -IHsubs. induction IHsubs as [|sub subs IHsub _ IHrest];
      intros s0 s0' Htable Hpath Hloop; cbn [for_each] in Hloop.
    - injection Hloop as <-. repeat split. cbn [foldl]. rewrite content_at_id.
      reflexivity.
    - apply bind_Ret_inv in Hloop as ([] & s1 & Hbody & Hloop).
      unfold bind at 1, moduleStack_emplace_back in Hbody.
      apply bind_Ret_inv in Hbody as ([] & s2 & Hsub & Hpop).
      unfold moduleStack_pop_back in Hpop. injection Hpop as <-.
      apply IHsub in Hsub as (Hst1 & Htb1 & Hc1).
      cbn in Hst1, Htb1, Hc1.
      rewrite content_ensure_snoc, content_at_snoc in Hc1.
      rewrite (content_ensure_has_path _ _ Hpath), content_at_compose in Hc1.
      rewrite Htable in Hc1.
      apply IHrest in Hloop as (Hst2 & Htb2 & Hc2); cbn.
      + cbn in Hst2, Htb2, Hc2. rewrite Hst1, removelast_last in Hst2, Hc2.
        repeat split; try congruence.
        rewrite Hc2, Hc1, content_at_compose. reflexivity.
      + congruence.
      + rewrite Hst1, removelast_last, Hc1. apply has_path_content_at.
        exact Hpath. }
  apply Hchildren in Hsubs as (Hst1 & Htb1 & Hc1); cbn; [| reflexivity |].
  2: { rewrite (at_path_content _ (set_content_optimized o)).
       - rewrite module_lookup_walk_content. apply has_path_content_at.
         apply has_path_content_ensure.
       - intros x. destruct x; reflexivity. }
  cbn in Hst1, Htb1, Hc1.
  rewrite (at_path_content _ (set_content_optimized o)) in Hc1
    by (intros x; destruct x; reflexivity).
  rewrite module_lookup_walk_content, content_at_compose in Hc1.
  (* the parameters *)
  apply for_each_convertParameter_load_content in Hps as (Hst2 & Htb2 & Hc2).
  rewrite Hc1, Htb1, content_at_compose in Hc2. fold table in Hc2.
  (* the code arena *)
  rewrite convertArena_run in Hrun.
  destruct (stoull (ref_key arena)) as [key|]; [|discriminate].
  cbn zeta in Hrun.
  destruct (getRecordWithKey reader key) as [data_|]; [|discriminate].
  destruct (N.of_nat (length data_) =? ref_size arena)%N; [|discriminate].
  destruct (import_methods (ModuleApi := load_ModuleApi) p data_
              (tensor_table_ s2) (world s2)) as [w'|] eqn:Himp; [|discriminate].
  injection Hrun as <-. cbn.
  split; [rewrite Hst2, Hst1; reflexivity|].
  split; [rewrite Htb2, Htb1; reflexivity|].
  assert (Hw' : module_content w' = module_content (world s2)).
  { cbn in Himp. destruct (module_at p (world s2)) as [m|] eqn:Hat; [|discriminate].
    destruct (import_methods_on m data_ (tensor_table_ s2)) as [m'|] eqn:Hon;
      [|discriminate].
    injection Himp as <-. apply at_path_content_same. intros x Hx.
    assert (x = m) as -> by congruence.
    destruct (Hloader _ _ _ _ Hon) as (Ho & Hp & Hm).
    rewrite (module_content_eq m'), (module_content_eq m), Ho, Hp, Hm.
    reflexivity. }
  rewrite Hw', Hc2. apply content_at_ext. intros x. reflexivity.
Qed.

(** ** The content of the tree against the descriptor tree *)

Lemma foldl_register_content (table : list Tensor) o cs params : ∀ ps0,
  foldl (register_content table) (ContentNode o ps0 cs) params
  = ContentNode o
      (foldl (fun acc p =>
                match vector_at table (tensor_id p) with
                | Some t => register_in (param_name p) t (is_buffer p) acc
                | None => acc
                end) ps0 params) cs.
Proof.
  induction params as [|p params IH]; intros ps0; cbn [foldl]; [reflexivity|].
  unfold register_content at 2.
  destruct (vector_at table (tensor_id p)); apply IH.
Qed.

Lemma build_content_children (table : list Tensor) o ps subs :
  Forall (fun sub => build_content table sub fresh_content = def_content table sub)
         subs →
  NoDup (map name subs) →
  ∀ cs, Forall (fun sub => has_key (name sub) cs = false) subs →
  foldl (fun acc sub =>
           alter_child (name sub) (build_content table sub)
                       (ensure_child (name sub) acc))
        (ContentNode o ps cs) subs
  = ContentNode o ps (cs ++ map (fun sub => (name sub, def_content table sub)) subs).
Proof.
  induction 1 as [|sub subs Hsub _ IH]; intros Hnd cs Hcs.
  - cbn. rewrite app_nil_r. reflexivity.
  - apply NoDup_cons in Hnd as [Hnotin Hnd].
    apply Forall_cons in Hcs as [Hn Hcs].
    cbn [foldl map ensure_child alter_child]. rewrite Hn.
    rewrite alter_entry_last by exact Hn. rewrite Hsub, IH.
    + rewrite <- app_assoc. reflexivity.
    + exact Hnd.
    + apply Forall_forall. intros sub' Hin. rewrite has_key_app.
      rewrite Forall_forall in Hcs. rewrite (Hcs sub' Hin). cbn.
      rewrite orb_false_r. apply bool_decide_eq_false_2. intros Heq.
      apply Hnotin. rewrite Heq. apply list_elem_of_fmap_2. exact Hin.
Qed.

Lemma build_content_fresh (table : list Tensor) : ∀ d,
  distinct_sibling_names d = true →
  build_content table d fresh_content = def_content table d.
Proof.
  induction d as [n o subs ps arena IHsubs] using ModuleDef_tree_ind.
  cbn [distinct_sibling_names build_content def_content submodules parameters
       optimize].
  intros [Hnd Hall]%andb_prop. apply bool_decide_eq_true_1 in Hnd.
  unfold fresh_content at 1. cbn [set_content_optimized].
  rewrite build_content_children; [| | exact Hnd | ].
  - rewrite foldl_register_content. reflexivity.
  - rewrite forallb_forall in Hall. rewrite Forall_forall in IHsubs.
    apply Forall_forall. intros sub Hin. apply IHsubs; [exact Hin|].
    apply Hall. apply list_elem_of_In. exact Hin.
  - apply Forall_forall. intros sub _. reflexivity.
Qed.

(** A successful load, taken apart: the reader, the transcoded model, the
    state after the tensor pass and the successful build of the root. *)
Lemma load_istream_Ret_inv (in_ : istream) (root : ScriptModule) s' :
  load_istream in_ = (Ret root, s') →
  ∃ reader json bin model_def s0,
    PyTorchStreamReader_new in_ = Some reader ∧
    getLastRecord reader = Some json ∧
    JsonToBinaryString json = Some bin ∧
    ParseFromString bin = Some model_def ∧
    world s0 = new_ScriptModule ∧ moduleStack_ s0 = [] ∧
    length (tensor_table_ s0) = length (tensors model_def) ∧
    convertModule (API := load_ModuleApi) load_module_lookup reader
      (main_module model_def) s0 = (Ret tt, s') ∧
    root = world s'.
Proof.
  intros Hload. unfold load_istream, run_deserializer,
    ScriptModuleDeserializer_istream in Hload.
  destruct (PyTorchStreamReader_new in_) as [reader|] eqn:Hnew; [|discriminate].
  destruct (deserialize (API := load_ModuleApi) reader load_module_lookup
              (new_deserializer new_ScriptModule)) as [[[]|e] s1] eqn:Hrun;
    [|discriminate].
  injection Hload as <- <-. rewrite deserialize_run in Hrun.
  destruct (getLastRecord reader) as [json|] eqn:Hlast; [|discriminate].
  destruct (JsonToBinaryString json) as [bin|] eqn:Hjson; [|discriminate].
  destruct (ParseFromString bin) as [model_def|] eqn:Hparse; [|discriminate].
  apply bind_Ret_inv in Hrun as ([] & s0 & Htensors & Hmodules).
  unfold loadTensorTable in Htensors.
  apply loadTensorTable_loop_Ret in Htensors
    as (sm' & tbl & hp & tr1 & Hw0 & Hst0 & Htb0 & _ & _ & Hlen & _).
  2: { intros k st Hk. rewrite lookup_empty in Hk. discriminate. }
  cbn in Hw0, Hst0, Htb0.
  exists reader, json, bin, model_def, s0.
  repeat match goal with |- _ ∧ _ => split end; try done.
  rewrite Htb0. exact Hlen.
Qed.

(** X7: when load succeeds with a code loader that leaves the flag, the
    parameters and the submodules of a module alone, the module tree it
    returns holds what the build of the root descriptor makes of an empty
    module (flag, then submodules left to right, then parameters, modules of
    one name being one module); if no two submodules of one module carry the
    same name, this is exactly the descriptor tree: every module has the
    optimize flag of its descriptor, its submodules in descriptor order under
    their names, and the parameters registered from its parameter
    descriptors, each with the tensor of the table at its id and its
    buffer/parameter classification. *)
Theorem load_istream_content (in_ : istream) (root : ScriptModule) s' :
  (∀ m d t m', import_methods_on m d t = Some m' →
     optimized m' = optimized m ∧ module_parameters m' = module_parameters m ∧
     modules m' = modules m) →
  load_istream in_ = (Ret root, s') →
  ∃ reader json bin model_def,
    PyTorchStreamReader_new in_ = Some reader ∧
    getLastRecord reader = Some json ∧
    JsonToBinaryString json = Some bin ∧
    ParseFromString bin = Some model_def ∧
    length (tensor_table_ s') = length (tensors model_def) ∧
    module_content root
    = build_content (tensor_table_ s') (main_module model_def) fresh_content ∧
    (distinct_sibling_names (main_module model_def) = true →
     module_content root = def_content (tensor_table_ s') (main_module model_def)).
Proof.
  intros Hloader Hload.
  apply load_istream_Ret_inv in Hload
    as (reader & json & bin & model_def & s0 & Hnew & Hlast & Hjson & Hparse
        & Hw0 & Hst0 & Hlen & Hmodules & ->).
  apply (convertModule_load_content reader Hloader) in Hmodules
    as (_ & Htb1 & Hc).
  rewrite Hst0, Hw0 in Hc. cbn [content_at content_ensure] in Hc.
  change (module_content new_ScriptModule)
    with (fresh_content (ScalarType := ScalarType)) in Hc.
  rewrite <- Htb1 in Hc.
  exists reader, json, bin, model_def.
  repeat match goal with |- _ ∧ _ => split end; try done.
  - rewrite Htb1. exact Hlen.
  - intros Hdistinct. rewrite Hc. apply build_content_fresh. exact Hdistinct.
Qed.

(** ** Parameters under distinct names *)

Lemma def_parameters_from (table : list Tensor) ps : ∀ acc,
  NoDup (map param_name ps) →
  Forall (fun p => has_key (param_name p) acc = false) ps →
  foldl (fun acc p =>
           match vector_at table (tensor_id p) with
           | Some t => register_in (param_name p) t (is_buffer p) acc
           | None => acc
           end) acc ps
  = acc ++ declared_parameters table ps.
Proof.
  induction ps as [|p ps IH]; intros acc Hnd Hacc.
  - cbn. rewrite app_nil_r. reflexivity.
  - apply NoDup_cons in Hnd as [Hnotin Hnd].
    apply Forall_cons in Hacc as [Hp Hacc].
    cbn [foldl]. unfold declared_parameters. cbn [omap list_omap].
    fold (declared_parameters table ps).
    destruct (vector_at table (tensor_id p)) as [t|].
    + unfold register_in. rewrite Hp, IH.
      * rewrite <- app_assoc. reflexivity.
      * exact Hnd.
      * apply Forall_forall. intros p' Hin. rewrite has_key_app.
        rewrite Forall_forall in Hacc. rewrite (Hacc p' Hin). cbn.
        rewrite orb_false_r. apply bool_decide_eq_false_2. intros Heq.
        apply Hnotin. rewrite Heq. apply list_elem_of_fmap_2. exact Hin.
    + apply IH; assumption.
Qed.

Lemma def_content_declared (table : list Tensor) : ∀ d,
  distinct_parameter_names d = true →
  def_content table d = declared_content table d.
Proof.
  induction d as [n o subs ps arena IHsubs] using ModuleDef_tree_ind.
  cbn [distinct_parameter_names def_content declared_content submodules
       parameters optimize].
  intros [Hnd Hall]%andb_prop. apply bool_decide_eq_true_1 in Hnd.
  f_equal.
  - unfold def_parameters. rewrite def_parameters_from; [reflexivity|exact Hnd|].
    apply Forall_forall. intros p _. reflexivity.
  - rewrite forallb_forall in Hall. clear -IHsubs Hall.
    induction IHsubs as [|sub subs Hsub _ IH]; [reflexivity|]. cbn [map].
    rewrite Hsub, IH; [reflexivity | |].
    + intros x Hx. apply Hall. right. exact Hx.
    + apply Hall. left. reflexivity.
Qed.

(** X9: when load succeeds on a model in which no two submodules and no two
    parameters of one module share a name (with a code loader that leaves
    flag, parameters and submodules alone), every module of the returned tree
    has exactly the parameters its descriptor declares, in declaration order:
    each under its declared name, bound to the tensor of the table at its
    tensor id, classified as buffer or parameter as declared; and every
    declared tensor id does index the table. *)
Theorem load_istream_declared_content (in_ : istream) (root : ScriptModule) s'
    reader json bin model_def :
  (∀ m d t m', import_methods_on m d t = Some m' →
     optimized m' = optimized m ∧ module_parameters m' = module_parameters m ∧
     modules m' = modules m) →
  PyTorchStreamReader_new in_ = Some reader →
  getLastRecord reader = Some json →
  JsonToBinaryString json = Some bin →
  ParseFromString bin = Some model_def →
  distinct_sibling_names (main_module model_def) = true →
  distinct_parameter_names (main_module model_def) = true →
  load_istream in_ = (Ret root, s') →
  module_content root
  = declared_content (tensor_table_ s') (main_module model_def) ∧
  ∀ d p, d ∈ preorder_modules (main_module model_def) → p ∈ parameters d →
         is_Some (vector_at (tensor_table_ s') (tensor_id p)).
Proof.
  intros Hloader Hnew Hlast Hjson Hparse Hsib Hpar Hload.
  apply load_istream_Ret_inv in Hload
    as (reader' & json' & bin' & model_def' & s0 & Hnew' & Hlast' & Hjson'
        & Hparse' & Hw0 & Hst0 & Hlen & Hmodules & ->).
  assert (reader' = reader) as -> by congruence.
  assert (json' = json) as -> by congruence.
  assert (bin' = bin) as -> by congruence.
  assert (model_def' = model_def) as -> by congruence.
  pose proof (convertModule_visit _ _ _ _ _ Hmodules) as (tr & _ & Hv & _ & Htb & _).
  apply (convertModule_load_content reader Hloader) in Hmodules as (_ & _ & Hc).
  rewrite Hst0, Hw0 in Hc. cbn [content_at content_ensure] in Hc.
  change (module_content new_ScriptModule)
    with (fresh_content (ScalarType := ScalarType)) in Hc.
  rewrite <- Htb in Hc, Hv. split.
  - rewrite Hc, build_content_fresh by exact Hsib.
    apply def_content_declared. exact Hpar.
  - intros d p Hd Hp. apply visit_parameters_in_range in Hv.
    rewrite Forall_forall in Hv. specialize (Hv d Hd).
    rewrite Forall_forall in Hv. exact (Hv p Hp).
Qed.

End LoadTreeFacts.



(** ** The properties at work on concrete archives *)

#[local] Existing Instance Demo.runtime.
#[local] Existing Instance Demo.loader.
#[local] Existing Instance load_ModuleApi.


(** The second reference to the record 7 declares 100 bytes, the record has
    80, and deserialize succeeds: only the first reference is checked. *)
Lemma later_reference_not_size_checked :
  (deserialize (Demo.reader "second_size") load_module_lookup Demo.fresh).1 = Ret tt ∧
  ParseFromString (list_byte_of_string "second_size") = Some Demo.model_second_size ∧
  tensors Demo.model_second_size !! 1 = Some (Demo.tensor7 100) ∧
  stoull (ref_key (data (Demo.tensor7 100))) = Some 7%N ∧
  getRecordWithKey (Demo.reader "second_size") 7 = Some (repeat x00 80) ∧
  N.of_nat (length (repeat x00 80)) ≠ ref_size (data (Demo.tensor7 100)).
Proof.
  repeat split; try (vm_compute; reflexivity). vm_compute. discriminate.
Qed.

Lemma deserialize_storage_size_mismatch_witness :
  getLastRecord (Demo.reader "first_size") = Some (list_byte_of_string "first_size") ∧
  ∃ e s' tr,
    deserialize (Demo.reader "first_size") load_module_lookup Demo.fresh
    = (Throw e, s') ∧
    world s' = world Demo.fresh ∧
    trace s' = trace Demo.fresh ++ tr ∧
    Forall (fun ev => is_reader_event ev = true) tr ∧
    ((loadTensorTable_loop (Demo.reader "first_size") [] ∅
        (logged Demo.fresh EvGetLastRecord)).1 = Ret tt →
     is_Some (typeMetaToScalarType (data_type (Demo.tensor7 100))) →
     e = StorageSizeMismatchError).
Proof.
  split; [reflexivity|].
  apply (deserialize_storage_size_mismatch (Demo.reader "first_size")
           load_module_lookup Demo.fresh
           (list_byte_of_string "first_size") (list_byte_of_string "first_size")
           Demo.model_first_size [] (Demo.tensor7 100) [] 7%N (repeat x00 80)).
  - reflexivity.
  - reflexivity.
  - reflexivity.
  - reflexivity.
  - reflexivity.
  - intros td' Hin. inversion Hin.
  - reflexivity.
  - vm_compute. discriminate.
Defined.

(** Two submodules named [a] end up as one module: the tree built is not of
    the shape of the descriptor tree. *)
Lemma load_merges_siblings_of_one_name :
  (convertModule load_module_lookup (Demo.reader "") Demo.def_dup Demo.fresh).1
  = Ret tt ∧
  module_shape
    (world (convertModule load_module_lookup (Demo.reader "") Demo.def_dup
              Demo.fresh).2)
  = ShapeNode [("a"%string, ShapeNode [])] ∧
  def_shape Demo.def_dup
  = ShapeNode [("a"%string, ShapeNode []); ("a"%string, ShapeNode [])] ∧
  module_shape
    (world (convertModule load_module_lookup (Demo.reader "") Demo.def_dup
              Demo.fresh).2)
  ≠ def_shape Demo.def_dup.
Proof.
  repeat split; try (vm_compute; reflexivity). vm_compute. discriminate.
Qed.

Lemma convertModule_traversal_witness :
  convertModule load_module_lookup (Demo.reader "") Demo.def_tree Demo.fresh
  = (Ret tt,
     (convertModule load_module_lookup (Demo.reader "") Demo.def_tree Demo.fresh).2) ∧
  (∃ tr,
     trace (convertModule load_module_lookup (Demo.reader "") Demo.def_tree
              Demo.fresh).2
     = trace Demo.fresh ++ tr ∧
     lookup_paths tr
     = map (app (moduleStack_ Demo.fresh)) (preorder_paths Demo.def_tree) ∧
     visit (Demo.reader "") (tensor_table_ Demo.fresh) (moduleStack_ Demo.fresh)
           Demo.def_tree tr ∧
     moduleStack_ (convertModule load_module_lookup (Demo.reader "") Demo.def_tree
                     Demo.fresh).2
     = moduleStack_ Demo.fresh) ∧
  module_shape
    (world (convertModule load_module_lookup (Demo.reader "") Demo.def_tree
              Demo.fresh).2)
  = def_shape Demo.def_tree.
Proof.
  assert (Hrun :
    convertModule load_module_lookup (Demo.reader "") Demo.def_tree Demo.fresh
    = (Ret tt,
       (convertModule load_module_lookup (Demo.reader "") Demo.def_tree
          Demo.fresh).2)) by (vm_compute; reflexivity).
  destruct (convertModule_traversal (RT := Demo.runtime) (CL := Demo.loader))
    as [Hgeneric Hload].
  split; [exact Hrun|]. split.
  - exact (Hgeneric _ _ _ _ _ _ _ _ Hrun).
  - apply (Hload (Demo.reader "") Demo.def_tree Demo.fresh).
    + intros m d t m' [= <-]. reflexivity.
    + vm_compute. reflexivity.
    + reflexivity.
    + reflexivity.
    + exact Hrun.
Defined.

Lemma deserialize_rejects_bad_metadata_witness :
  getLastRecord (Demo.reader "{") = Some (list_byte_of_string "{") ∧
  (JsonToBinaryString (list_byte_of_string "{") = None →
   deserialize (Demo.reader "{") load_module_lookup Demo.fresh
   = (Throw MetadataTranscodeError, logged Demo.fresh EvGetLastRecord)) ∧
  (∀ bin, JsonToBinaryString (list_byte_of_string "{") = Some bin →
   ParseFromString bin = None →
   deserialize (Demo.reader "{") load_module_lookup Demo.fresh
   = (Throw SchemaValidationError, logged Demo.fresh EvGetLastRecord)).
Proof.
  split; [reflexivity|].
  apply (deserialize_rejects_bad_metadata (Demo.reader "{") load_module_lookup
           Demo.fresh (list_byte_of_string "{")).
  reflexivity.
Defined.



Lemma deserialize_order_witness :
  deserialize (Demo.reader "alias") load_module_lookup
    (new_deserializer new_ScriptModule)
  = (Ret tt, (deserialize (Demo.reader "alias") load_module_lookup
                (new_deserializer new_ScriptModule)).2) ∧
  ∃ json bin model_def tr_tensors tr_modules,
    getLastRecord (Demo.reader "alias") = Some json ∧
    JsonToBinaryString json = Some bin ∧
    ParseFromString bin = Some model_def ∧
    trace (deserialize (Demo.reader "alias") load_module_lookup
             (new_deserializer new_ScriptModule)).2
    = [EvGetLastRecord] ++ tr_tensors ++ tr_modules ∧
    Forall (fun e => is_fetch e = true) tr_tensors ∧
    length (tensor_table_ (deserialize (Demo.reader "alias") load_module_lookup
                             (new_deserializer new_ScriptModule)).2)
    = length (tensors model_def) ∧
    (∀ i td, tensors model_def !! i = Some td →
       ∃ ty t, typeMetaToScalarType (data_type td) = Some ty ∧
               tensor_table_ (deserialize (Demo.reader "alias") load_module_lookup
                                (new_deserializer new_ScriptModule)).2 !! i
               = Some t ∧ view_of td ty t) ∧
    visit (Demo.reader "alias")
          (tensor_table_ (deserialize (Demo.reader "alias") load_module_lookup
                            (new_deserializer new_ScriptModule)).2)
          [] (main_module model_def) tr_modules ∧
    lookup_paths tr_modules = preorder_paths (main_module model_def).
Proof.
  assert (Hrun :
    deserialize (Demo.reader "alias") load_module_lookup
      (new_deserializer new_ScriptModule)
    = (Ret tt, (deserialize (Demo.reader "alias") load_module_lookup
                  (new_deserializer new_ScriptModule)).2))
    by (vm_compute; reflexivity).
  split; [exact Hrun|].
  exact (deserialize_order _ _ _ _ Hrun).
Defined.

Lemma import_ir_module_filename_skips_open_check_witness :
  Demo.files "nope" = None ∧
  load_filename Demo.files "nope"
  = (Throw ArchiveOpenError, new_deserializer new_ScriptModule) ∧
  import_ir_module_filename load_module_lookup Demo.files "nope" new_ScriptModule
  = import_ir_module_istream load_module_lookup (mkIstream true []) new_ScriptModule ∧
  (import_ir_module_filename load_module_lookup Demo.files "nope"
     new_ScriptModule).1 ≠ Throw ArchiveOpenError.
Proof.
  split; [reflexivity|].
  apply (import_ir_module_filename_skips_open_check load_module_lookup Demo.files
           "nope" new_ScriptModule).
  reflexivity.
Defined.

Lemma load_filename_delegates_witness :
  Demo.files "model.pt" = Some (list_byte_of_string "alias") ∧
  load_filename Demo.files "model.pt"
  = load_istream (mkIstream false (list_byte_of_string "alias")).
Proof.
  split; [reflexivity|].
  apply (load_filename_delegates Demo.files "model.pt" (list_byte_of_string "alias")).
  reflexivity.
Defined.

Lemma loadTensor_numel_floor_witness :
  (N.of_nat (length (repeat x00 10)) mod itemsize Demo.kFloat = 2)%N ∧
  ∃ t s' numel,
    loadTensor (Demo.reader "") Demo.tensor16 ∅ Demo.fresh
    = (Ret (t, <[16%N := t_storage t]> ∅), s') ∧
    t_storage t = length (heap Demo.fresh) ∧
    heap s' = heap Demo.fresh ++ [mkStorageImpl Demo.kFloat (repeat x00 10) numel] ∧
    numel = (N.of_nat (length (repeat x00 10)) / itemsize Demo.kFloat)%N ∧
    (numel * itemsize Demo.kFloat ≤ N.of_nat (length (repeat x00 10)))%N ∧
    (N.of_nat (length (repeat x00 10))
     < numel * itemsize Demo.kFloat + itemsize Demo.kFloat)%N ∧
    (N.of_nat (length (repeat x00 10)) - numel * itemsize Demo.kFloat
     = N.of_nat (length (repeat x00 10)) mod itemsize Demo.kFloat)%N.
Proof.
  split; [reflexivity|].
  apply (loadTensor_numel_floor (Demo.reader "") Demo.tensor16 ∅ Demo.fresh
           Demo.kFloat 16%N (repeat x00 10)).
  - reflexivity.
  - reflexivity.
  - apply lookup_empty.
  - reflexivity.
  - reflexivity.
  - reflexivity.
Defined.

(** ** The further properties at work on concrete archives *)

Lemma loadTensorTable_one_storage_per_key_witness :
  loadTensorTable (Demo.reader "alias") Demo.model_alias Demo.fresh
  = (Ret tt, Demo.alias_tensors) ∧
  ∃ tbl hp tr,
    tensor_table_ Demo.alias_tensors = tensor_table_ Demo.fresh ++ tbl ∧
    heap Demo.alias_tensors = heap Demo.fresh ++ hp ∧
    trace Demo.alias_tensors = trace Demo.fresh ++ tr ∧
    length hp
    = size (list_to_set (tensor_keys (tensors Demo.model_alias)) : gset N) ∧
    length tr = length hp ∧
    ∀ i j tdi tdj ki kj ti tj,
      tensors Demo.model_alias !! i = Some tdi →
      tensors Demo.model_alias !! j = Some tdj →
      stoull (ref_key (data tdi)) = Some ki →
      stoull (ref_key (data tdj)) = Some kj →
      tbl !! i = Some ti → tbl !! j = Some tj →
      (t_storage ti = t_storage tj ↔ ki = kj) ∧
      t_storage ti < length (heap Demo.alias_tensors).
Proof.
  unfold Demo.built, Demo.loaded, Demo.deserialized, Demo.alias_tensors.
  match goal with
  | |- ?run ∧ _ => assert (Hrun : run) by (vm_compute; reflexivity)
  end.
  split; [exact Hrun|].
  exact (loadTensorTable_one_storage_per_key _ _ _ _ Hrun).
Defined.

Lemma loadTensorTable_storage_of_first_reference_witness :
  loadTensorTable (Demo.reader "alias") Demo.model_alias Demo.fresh
  = (Ret tt, Demo.alias_tensors) ∧
  ∃ tbl,
    tensor_table_ Demo.alias_tensors = tensor_table_ Demo.fresh ++ tbl ∧
    ∀ i td k t,
      tensors Demo.model_alias !! i = Some td →
      stoull (ref_key (data td)) = Some k →
      tbl !! i = Some t →
      typeMetaToScalarType (data_type td) = Some (t_dtype t) ∧
      ∃ i0 td0 ty0 rec,
        i0 ≤ i ∧
        tensors Demo.model_alias !! i0 = Some td0 ∧
        stoull (ref_key (data td0)) = Some k ∧
        (∀ j tdj, j < i0 → tensors Demo.model_alias !! j = Some tdj →
                  stoull (ref_key (data tdj)) ≠ Some k) ∧
        typeMetaToScalarType (data_type td0) = Some ty0 ∧
        getRecordWithKey (Demo.reader "alias") k = Some rec ∧
        N.of_nat (length rec) = ref_size (data td0) ∧
        heap Demo.alias_tensors !! t_storage t
        = Some (mkStorageImpl ty0 rec (N.of_nat (length rec) / itemsize ty0)%N).
Proof.
  unfold Demo.built, Demo.loaded, Demo.deserialized, Demo.alias_tensors.
  match goal with
  | |- ?run ∧ _ => assert (Hrun : run) by (vm_compute; reflexivity)
  end.
  split; [exact Hrun|].
  exact (loadTensorTable_storage_of_first_reference _ _ _ _ Hrun).
Defined.

Lemma deserialize_parameters_in_range_witness :
  Demo.deserialized "alias" = (Ret tt, (Demo.deserialized "alias").2) ∧
  ∃ json bin model_def,
    getLastRecord (Demo.reader "alias") = Some json ∧
    JsonToBinaryString json = Some bin ∧
    ParseFromString bin = Some model_def ∧
    ∀ d p, d ∈ preorder_modules (main_module model_def) →
           p ∈ parameters d →
           (0 ≤ tensor_id p `mod` 2 ^ 64
            < Z.of_nat (length (tensors model_def)))%Z.
Proof.
  unfold Demo.built, Demo.loaded, Demo.deserialized, Demo.alias_tensors.
  match goal with
  | |- ?run ∧ _ => assert (Hrun : run) by (vm_compute; reflexivity)
  end.
  split; [exact Hrun|].
  exact (deserialize_parameters_in_range (Demo.reader "alias") load_module_lookup
           new_ScriptModule _ Hrun).
Defined.

Lemma convertModule_loads_code_in_postorder_witness :
  Demo.built Demo.def_tree = (Ret tt, (Demo.built Demo.def_tree).2) ∧
  ∃ tr, trace (Demo.built Demo.def_tree).2 = trace Demo.fresh ++ tr ∧
    Forall2 (fun call d =>
               arena_record (Demo.reader "") d = Some call.1 ∧
               N.of_nat (length call.1) = ref_size (torchscript_arena d) ∧
               call.2 = tensor_table_ Demo.fresh)
            (import_calls tr) (postorder_modules Demo.def_tree).
Proof.
  unfold Demo.built, Demo.loaded, Demo.deserialized, Demo.alias_tensors.
  match goal with
  | |- ?run ∧ _ => assert (Hrun : run) by (vm_compute; reflexivity)
  end.
  split; [exact Hrun|].
  exact (convertModule_loads_code_in_postorder _ _ _ _ _ Hrun).
Defined.

Lemma convertModule_arena_mismatch_after_parameters_witness :
  N.of_nat (length (repeat x00 80)) ≠ ref_size (torchscript_arena Demo.def_bad_arena) ∧
  ∃ s' tr,
    convertModule load_module_lookup (Demo.reader "") Demo.def_bad_arena
      Demo.two_tensors
    = (Throw CodeArenaSizeMismatchError, s') ∧
    world s'
    = foldl (fun w' pt => register_parameter [] (param_name pt.1) pt.2
                            (is_buffer pt.1) w')
            (set_optimized [] (optimize Demo.def_bad_arena) new_ScriptModule)
            (zip (parameters Demo.def_bad_arena) (tensor_table_ Demo.two_tensors)) ∧
    trace s' = trace Demo.two_tensors ++ tr ∧
    import_calls tr = [] ∧
    length (List.filter (fun e => match e with
                                  | EvRegisterParameter _ _ _ _ => true
                                  | _ => false
                                  end) tr)
    = length (parameters Demo.def_bad_arena).
Proof.
  assert (Hsz : N.of_nat (length (repeat x00 80))
                ≠ ref_size (torchscript_arena Demo.def_bad_arena))
    by (vm_compute; discriminate).
  split; [exact Hsz|].
  apply (convertModule_arena_mismatch_after_parameters load_module_lookup
           (Demo.reader "") Demo.def_bad_arena Demo.two_tensors []
           new_ScriptModule (tensor_table_ Demo.two_tensors) 7%N (repeat x00 80)).
  - reflexivity.
  - reflexivity.
  - repeat constructor.
  - reflexivity.
  - reflexivity.
  - exact Hsz.
Defined.

Lemma deserialize_failure_phase_witness :
  Demo.deserialized "first_size"
  = (Throw StorageSizeMismatchError, (Demo.deserialized "first_size").2) ∧
  world (Demo.deserialized "first_size").2 = world Demo.fresh ∧
  ∃ tr, trace (Demo.deserialized "first_size").2 = trace Demo.fresh ++ tr ∧
        Forall (fun ev => is_reader_event ev = true) tr.
Proof.
  unfold Demo.built, Demo.loaded, Demo.deserialized, Demo.alias_tensors.
  match goal with
  | |- ?run ∧ _ => assert (Hrun : run) by (vm_compute; reflexivity)
  end.
  split; [exact Hrun|].
  apply (deserialize_failure_phase _ _ _ _ _ Hrun). auto.
Defined.

Lemma load_istream_content_witness :
  Demo.loaded "tree" = (Ret (world (Demo.loaded "tree").2), (Demo.loaded "tree").2) ∧
  ∃ reader json bin model_def,
    PyTorchStreamReader_new (Demo.archive "tree") = Some reader ∧
    getLastRecord reader = Some json ∧
    JsonToBinaryString json = Some bin ∧
    ParseFromString bin = Some model_def ∧
    length (tensor_table_ (Demo.loaded "tree").2) = length (tensors model_def) ∧
    module_content (world (Demo.loaded "tree").2)
    = build_content (tensor_table_ (Demo.loaded "tree").2) (main_module model_def)
        fresh_content ∧
    (distinct_sibling_names (main_module model_def) = true →
     module_content (world (Demo.loaded "tree").2)
     = def_content (tensor_table_ (Demo.loaded "tree").2) (main_module model_def)).
Proof.
  unfold Demo.built, Demo.loaded, Demo.deserialized, Demo.alias_tensors.
  match goal with
  | |- ?run ∧ _ => assert (Hrun : run) by (vm_compute; reflexivity)
  end.
  split; [exact Hrun|].
  apply (load_istream_content (Demo.archive "tree") _ _).
  - intros m d t m' [= <-]. repeat split.
  - exact Hrun.
Defined.

Lemma load_istream_declared_content_witness :
  Demo.loaded "alias"
  = (Ret (world (Demo.loaded "alias").2), (Demo.loaded "alias").2) ∧
  module_content (world (Demo.loaded "alias").2)
  = declared_content (tensor_table_ (Demo.loaded "alias").2)
      (main_module Demo.model_alias) ∧
  ∀ d p, d ∈ preorder_modules (main_module Demo.model_alias) →
         p ∈ parameters d →
         is_Some (vector_at (tensor_table_ (Demo.loaded "alias").2) (tensor_id p)).
Proof.
  unfold Demo.built, Demo.loaded, Demo.deserialized, Demo.alias_tensors.
  match goal with
  | |- ?run ∧ _ => assert (Hrun : run) by (vm_compute; reflexivity)
  end.
  split; [exact Hrun|].
  apply (load_istream_declared_content (Demo.archive "alias") _ _
           (Demo.reader "alias") (list_byte_of_string "alias")
           (list_byte_of_string "alias") Demo.model_alias).
  - intros m d t m' [= <-]. repeat split.
  - reflexivity.
  - reflexivity.
  - reflexivity.
  - reflexivity.
  - vm_compute. reflexivity.
  - vm_compute. reflexivity.
  - exact Hrun.
Defined.

Lemma convertModule_lookups_distinct_witness :
  Demo.built Demo.def_tree = (Ret tt, (Demo.built Demo.def_tree).2) ∧
  ∃ tr, trace (Demo.built Demo.def_tree).2 = trace Demo.fresh ++ tr ∧
    length (lookup_paths tr) = length (preorder_modules Demo.def_tree) ∧
    (distinct_sibling_names Demo.def_tree = true → NoDup (lookup_paths tr)).
Proof.
  unfold Demo.built, Demo.loaded, Demo.deserialized, Demo.alias_tensors.
  match goal with
  | |- ?run ∧ _ => assert (Hrun : run) by (vm_compute; reflexivity)
  end.
  split; [exact Hrun|].
  exact (convertModule_lookups_distinct _ _ _ _ _ Hrun).
Defined.
